(** * The snapshot-key helpers of the streaming-zarr notebook

    Shallow embedding of the two helper functions of [example.ipynb]

<<
    def get_all_keys(store):
        keys = list(set([s.split('/')[0] for s in store.keylist()]))
        keys.remove('.zgroup')
        keys.sort(key=int)
        return keys

    def get_most_recent_key(store):
        keys = get_all_keys(store)
        return keys[-1]
>>

    together with the Python builtins they call ([str.split], indexing,
    [set], [list.remove], [list.sort], [int]), as CPython 3.7 (the kernel
    the notebook records) defines them.

    Strings are [String.string]; a character stands for the code point of
    the same number, so the development covers keys over code points below
    256.  Python's [int] objects are unbounded and are modelled by [Z]. *)

From Stdlib Require Import ZArith Ascii String List Sorting.Sorted.
From stdpp Require Import base decidable option list strings sorting.

Local Open Scope string_scope.
Local Open Scope Z_scope.
Local Open Scope list_scope.

(** ** Exceptions and results *)

(** The exceptions the two helpers can raise.  [list.remove] and [int]
    both raise Python's [ValueError]; the two constructors keep apart what
    Python tells apart by the message only.  In the words of the
    specification, the [ValueError] of [int] is its [MalformedIdentifier]
    and the [IndexError] of [keys[-1]] its [EmptyNamespace]; the
    [ValueError] of [list.remove] has no name there.

    The argument of [ValueError_int] is the argument of the call of [int]
    that failed.  It is not the text of the exception: CPython's message
    holds the [repr] of that argument, cut at 200 characters, and the
    message is not modelled. *)
Inductive exn : Type :=
| ValueError_remove              (* ValueError, raised by list.remove(x) *)
| ValueError_int (s : string)    (* ValueError, raised by int(s) *)
| IndexError.                    (* IndexError, raised by l[i] *)

Inductive result (A : Type) : Type :=
| Ok (a : A)
| Raise (e : exn).
Arguments Ok {A} a.
Arguments Raise {A} e.

#[global] Instance exn_eq_dec : EqDecision exn.
Proof. solve_decision. Defined.

#[global] Instance result_eq_dec {A} `{EqDecision A} : EqDecision (result A).
Proof. solve_decision. Defined.

#[global] Instance result_ret : MRet result := @Ok.
#[global] Instance result_bind : MBind result := λ A B f m,
  match m with
  | Ok a => f a
  | Raise e => Raise e
  end.
#[global] Instance result_fmap : FMap result := λ A B f m,
  match m with
  | Ok a => Ok (f a)
  | Raise e => Raise e
  end.

(** Whether a call returned normally. *)
Definition returns {A} (r : result A) : Prop := ∃ a, r = Ok a.
Definition raises {A} (r : result A) : Prop := ∃ e, r = Raise e.

(** ** The builtins *)

Module Py.

(** [s.split(sep)] for a separator of one character: the pieces of [s]
    between the occurrences of [sep], in order; never an empty list. *)
Fixpoint split (sep : ascii) (s : string) : list string :=
  match s with
  | EmptyString => [EmptyString]
  | String c r =>
      if decide (c = sep) then EmptyString :: split sep r
      else match split sep r with
           | p :: ps => String c p :: ps
           | [] => [String c EmptyString]
           end
  end.

(** [l[i]]: a negative index counts from the end; an index out of range
    raises [IndexError]. *)
Definition getitem {A} (l : list A) (i : Z) : result A :=
  let n := Z.of_nat (length l) in
  let j := if i <? 0 then i + n else i in
  if (j <? 0) || (n <=? j) then Raise IndexError
  else match l !! Z.to_nat j with
       | Some x => Ok x
       | None => Raise IndexError
       end.

(** [l.remove(x)]: drops the first element equal to [x]; raises
    [ValueError] when there is none. *)
Fixpoint list_remove (x : string) (l : list string) : result (list string) :=
  match l with
  | [] => Raise ValueError_remove
  | y :: l' => if decide (y = x) then Ok l' else (y ::.) <$> list_remove x l'
  end.

(** *** [int(s)]

    The characters [int] skips around a numeral: the ASCII blanks, and the
    two other code points below 256 that are Unicode white space. *)
Definition is_space (c : ascii) : bool :=
  let n := Z.of_N (N_of_ascii c) in
  ((9 <=? n) && (n <=? 13)) || (n =? 32) || (n =? 133) || (n =? 160).

Definition digit_value (c : ascii) : option Z :=
  let n := Z.of_N (N_of_ascii c) in
  if (48 <=? n) && (n <=? 57) then Some (n - 48) else None.

Fixpoint skip_spaces (s : string) : string :=
  match s with
  | String c r => if is_space c then skip_spaces r else s
  | EmptyString => s
  end.

(** The run of digits and single underscores at the head of [s]: its
    value in base 10 and what follows it.  [prev_us] says that the
    character just read was an underscore; a doubled or a trailing
    underscore is an error. *)
Fixpoint scan_digits (prev_us : bool) (acc : Z) (s : string) : option (Z * string) :=
  match s with
  | String c r =>
      match digit_value c with
      | Some d => scan_digits false (10 * acc + d) r
      | None =>
          if decide (c = "_"%char)
          then (if prev_us then None else scan_digits true acc r)
          else (if prev_us then None else Some (acc, s))
      end
  | EmptyString => if prev_us then None else Some (acc, s)
  end.

(** The integer [int(s)] denotes, if any: blanks, an optional sign, a
    numeral that starts with a digit, blanks, and nothing else. *)
Definition parse_int (s : string) : option Z :=
  let s1 := skip_spaces s in
  let '(neg, s2) :=
    match s1 with
    | String "+" r => (false, r)
    | String "-" r => (true, r)
    | _ => (false, s1)
    end in
  match s2 with
  | String c _ =>
      match digit_value c with
      | Some _ =>
          match scan_digits false 0 s2 with
          | Some (v, rest) =>
              match skip_spaces rest with
              | EmptyString => Some (if neg then - v else v)
              | String _ _ => None
              end
          | None => None
          end
      | None => None
      end
  | EmptyString => None
  end.

Definition int (s : string) : result Z :=
  match parse_int s with
  | Some z => Ok z
  | None => Raise (ValueError_int s)
  end.

(** *** [l.sort(key=f)]

    The keys are computed first, one call of [f] per element in list
    order, so the first failing call decides the exception; the elements
    are then put in ascending order of their keys, compared with [<]
    only, elements with equal keys staying in their original order. *)
Fixpoint insert_by_key (kx : Z * string) (l : list (Z * string)) : list (Z * string) :=
  match l with
  | [] => [kx]
  | ky :: l' => if ky.1 <? kx.1 then ky :: insert_by_key kx l' else kx :: l
  end.

Definition stable_sort (l : list (Z * string)) : list (Z * string) :=
  foldr insert_by_key [] l.

Definition list_sort (key : string → result Z) (l : list string) : result (list string) :=
  ks ← mapM key l;
  mret ((stable_sort (zip ks l)).*2).

End Py.

(** ** The interpreter's sets

    [list(set(xs))] lists the distinct elements of [xs] in the order of the
    set's hash table, which depends on the string hashes of the running
    interpreter.  All the code can rely on is that every element of [xs]
    is listed exactly once. *)
Class Interp : Type := {
  list_of_set : list string → list string;
  list_of_set_NoDup : ∀ xs, NoDup (list_of_set xs);
  list_of_set_elem : ∀ xs x, x ∈ list_of_set xs ↔ x ∈ xs;
}.

(** One such order, for running the helpers on concrete listings. *)
#[global] Instance last_seen_order : Interp := {|
  list_of_set := remove_dups;
  list_of_set_NoDup := NoDup_remove_dups;
  list_of_set_elem := elem_of_remove_dups;
|}.

(** ** The helpers *)

(** The key the store reserves for the group's metadata. *)
Definition zgroup : string := ".zgroup".

Section Helpers.
Context `{Interp}.

(** [[s.split('/')[0] for s in keylist]] *)
Definition candidates (keylist : list string) : result (list string) :=
  mapM (λ s, Py.getitem (Py.split "/" s) 0) keylist.

(** [get_all_keys(store)], on the listing [store.keylist()] returns. *)
Definition get_all_keys (keylist : list string) : result (list string) :=
  cs ← candidates keylist;
  let keys := list_of_set cs in
  keys ← Py.list_remove zgroup keys;
  keys ← Py.list_sort Py.int keys;
  mret keys.

(** [get_most_recent_key(store)] *)
Definition get_most_recent_key (keylist : list string) : result string :=
  keys ← get_all_keys keylist;
  Py.getitem keys (-1).

End Helpers.

(** ** The helpers on list objects

    Python's lists are mutable objects and [remove] and [sort] change
    theirs in place.  This second rendering keeps the list objects of the
    running program in a heap and runs the helpers statement by statement
    on references, so that what a call does to the objects around it can
    be stated. *)
Module Imp.

Abbreviation ref := nat (only parsing).
Abbreviation heap := (list (list string)) (only parsing).

(** A computation may change the heap and may raise; an exception
    leaves the heap as it was when it was raised. *)
Record M (A : Type) : Type := Run { run : heap → result A * heap }.
Arguments Run {A} _.
Arguments run {A} _ _.

#[global] Instance M_ret : MRet M := λ A a, Run (λ h, (Ok a, h)).
#[global] Instance M_bind : MBind M := λ A B f m, Run (λ h,
  match run m h with
  | (Ok a, h') => run (f a) h'
  | (Raise e, h') => (Raise e, h')
  end).

Definition lift {A} (x : result A) : M A := Run (λ h, (x, h)).
Definition new (v : list string) : M ref := Run (λ h, (Ok (length h), h ++ [v])).
Definition get (r : ref) : M (list string) := Run (λ h, (Ok (h !!! r), h)).
Definition put (r : ref) (v : list string) : M unit := Run (λ h, (Ok (), <[r := v]> h)).

Section Helpers.
Context `{Interp}.

(** [store.keylist()]: the store is represented by the list object
    that holds its listing; nothing is assumed about the listing being
    a copy, so the caller may hold the same object. *)
Definition keylist (store : ref) : M ref := mret store.

(** [[s.split('/')[0] for s in raw]]: a new list. *)
Definition comprehension (raw : ref) : M ref :=
  xs ← get raw;
  cs ← lift (candidates xs);
  new cs.

(** [list(set(cs))]: a new list. *)
Definition list_set (cs : ref) : M ref :=
  xs ← get cs;
  new (list_of_set xs).

(** [keys.remove(x)], in place. *)
Definition remove (keys : ref) (x : string) : M unit :=
  v ← get keys;
  v' ← lift (Py.list_remove x v);
  put keys v'.

(** [keys.sort(key=f)], in place; a failing key leaves the list as it was. *)
Definition sort (keys : ref) (key : string → result Z) : M unit :=
  v ← get keys;
  v' ← lift (Py.list_sort key v);
  put keys v'.

Definition get_all_keys (store : ref) : M ref :=
  raw ← keylist store;
  cs ← comprehension raw;
  keys ← list_set cs;
  _ ← remove keys zgroup;
  _ ← sort keys Py.int;
  mret keys.

Definition get_most_recent_key (store : ref) : M string :=
  keys ← get_all_keys store;
  v ← get keys;
  lift (Py.getitem v (-1)).

End Helpers.

(** What the caller sees of a call that was to return a list: the
    contents of the returned object, or the exception. *)
Definition outcome (run : result ref * heap) : result (list string) :=
  match run.1 with
  | Ok r => Ok (run.2 !!! r)
  | Raise e => Raise e
  end.

End Imp.

(** ** Vocabulary of the statements *)

(** The character [c] occurs in [s]. *)
Fixpoint occurs (c : ascii) (s : string) : Prop :=
  match s with
  | EmptyString => False
  | String d r => d = c ∨ occurs c r
  end.

(** [p] is the part of [s] before the first [sep], or all of [s] when
    [sep] does not occur in it. *)
Definition before_first (sep : ascii) (s p : string) : Prop :=
  (¬ occurs sep s ∧ p = s) ∨
  (∃ rest, s = p +:+ String sep rest ∧ ¬ occurs sep p).

(** The value of [s.split('/')[0]] (the expression never raises, see
    [getitem_split_candidate]). *)
Definition candidate (s : string) : string :=
  match Py.split "/" s with
  | p :: _ => p
  | [] => EmptyString
  end.

(** Order of two keys by the integers [int] reads them as. *)
Definition numeric_le (a b : string) : Prop :=
  ∃ x y, Py.parse_int a = Some x ∧ Py.parse_int b = Some y ∧ x ≤ y.
Definition numeric_lt (a b : string) : Prop :=
  ∃ x y, Py.parse_int a = Some x ∧ Py.parse_int b = Some y ∧ x < y.

(** [s] is read by [int] as an integer that is not negative. *)
Definition non_negative_numeral (s : string) : Prop :=
  ∃ n, Py.parse_int s = Some n ∧ 0 ≤ n.

(** Order of the pairs the sort works on, by their keys. *)
Definition key_le (a b : Z * string) : Prop := a.1 ≤ b.1.

(** Membership in a listing that is written out. *)
Ltac elem_of_listing :=
  simpl; repeat first [apply list_elem_of_here | apply list_elem_of_further].

(** One case per element of a written-out listing [l], from [H : c ∈ l]. *)
Ltac each_elem_of H :=
  let E := fresh "E" in
  simpl in H;
  repeat (apply elem_of_cons in H as [E|H];
          [vm_compute in E; try discriminate E; try subst | ]);
  [.. | by apply elem_of_nil in H].

(** Numerals as a program writes them: a run of decimal digits that is
    not empty, and, for the canonical ones, no leading zero. *)
Fixpoint all_digits (s : string) : Prop :=
  match s with
  | EmptyString => True
  | String c r => is_Some (Py.digit_value c) ∧ all_digits r
  end.

Definition decimal_numeral (s : string) : Prop :=
  s ≠ EmptyString ∧ all_digits s.

Definition canonical_numeral (s : string) : Prop :=
  decimal_numeral s ∧ (s = "0" ∨ ∃ c r, s = String c r ∧ c ≠ "0"%char).

(** The value of a run of digits that continues a numeral of value [acc]. *)
Fixpoint digits_value (acc : Z) (s : string) : Z :=
  match s with
  | EmptyString => acc
  | String c r => digits_value (10 * acc + default 0 (Py.digit_value c)) r
  end.

(** ** Loading the arrays

<<
    def load_as_dask_array(keys):
        dask_arrays = []
        labels = []
        for key in keys:
            try:
                za = zarr.open_array(store=store, mode='r', path=key)
                dask_arrays.append(dask.array.from_zarr(za))
                labels.append(int(key))
            except ValueError:
                pass

        stacked = dask.array.stack(dask_arrays)
        return xr.DataArray(stacked, dims=['time', 'x', 'y'],
                            coords={'time': labels}, name='gameoflife')
>>

    The function calls into zarr, dask and xarray.  Nothing is assumed of
    these calls: each may read and change the state of the world around
    the program (the Redis server, the libraries), and each may return or
    raise an exception of the library's own, which is or is not a
    [ValueError]. *)
Class Libs : Type := {
  World : Type;
  LibError : Type;
  (** whether [except ValueError] catches the exception *)
  is_ValueError : LibError → bool;
  ZarrArray : Type;
  DaskArray : Type;
  DataArray : Type;
  (** [zarr.open_array(store=store, mode='r', path=key)] *)
  zarr_open_array : string → World → (LibError + ZarrArray) * World;
  (** [dask.array.from_zarr(za)] *)
  dask_from_zarr : ZarrArray → World → (LibError + DaskArray) * World;
  (** [dask.array.stack(arrays)] *)
  dask_stack : list DaskArray → World → (LibError + DaskArray) * World;
  (** [xr.DataArray(stacked, dims=['time', 'x', 'y'], coords={'time': labels},
      name='gameoflife')] *)
  xr_DataArray : DaskArray → list Z → World → (LibError + DataArray) * World;
}.

Module Load.
Section Load.
Context `{Libs}.

(** What a statement of the function may raise: an exception of a library,
    or one of the builtins'. *)
Inductive raised : Type :=
| Lib (e : LibError)
| Builtin (e : exn).

(** [except ValueError] *)
Definition is_caught (e : raised) : bool :=
  match e with
  | Lib e => is_ValueError e
  | Builtin ValueError_remove => true
  | Builtin (ValueError_int _) => true
  | Builtin IndexError => false
  end.

(** The world and the two local lists of a call. *)
Record frame : Type := Frame {
  world : World;
  dask_arrays : list DaskArray;
  labels : list Z;
}.

(** A statement changes the frame and may raise; what it did to the frame
    before raising stays done. *)
Record L (A : Type) : Type := Run { run : frame → (raised + A) * frame }.
Arguments Run {A} _.
Arguments run {A} _ _.

#[global] Instance L_ret : MRet L := λ A a, Run (λ fr, (inr a, fr)).
#[global] Instance L_bind : MBind L := λ A B f m, Run (λ fr,
  match run m fr with
  | (inr a, fr') => run (f a) fr'
  | (inl e, fr') => (inl e, fr')
  end).

(** A call into a library. *)
Definition call {A} (f : World → (LibError + A) * World) : L A := Run (λ fr,
  let '(r, w) := f (world fr) in
  (match r with inl e => inl (Lib e) | inr a => inr a end,
   Frame w (dask_arrays fr) (labels fr))).

(** A call of a builtin. *)
Definition builtin {A} (r : result A) : L A := Run (λ fr,
  (match r with Raise e => inl (Builtin e) | Ok a => inr a end, fr)).

(** [dask_arrays = l] and [labels = l] *)
Definition assign_dask_arrays (l : list DaskArray) : L unit := Run (λ fr,
  (inr (), Frame (world fr) l (labels fr))).
Definition assign_labels (l : list Z) : L unit := Run (λ fr,
  (inr (), Frame (world fr) (dask_arrays fr) l)).

(** [dask_arrays.append(d)] and [labels.append(n)] *)
Definition append_dask_array (d : DaskArray) : L unit := Run (λ fr,
  (inr (), Frame (world fr) (dask_arrays fr ++ [d]) (labels fr))).
Definition append_label (n : Z) : L unit := Run (λ fr,
  (inr (), Frame (world fr) (dask_arrays fr) (labels fr ++ [n]))).

Definition read_dask_arrays : L (list DaskArray) := Run (λ fr,
  (inr (dask_arrays fr), fr)).
Definition read_labels : L (list Z) := Run (λ fr, (inr (labels fr), fr)).

(** [try: body except ValueError: pass] *)
Definition try_except_ValueError (body : L unit) : L unit := Run (λ fr,
  match run body fr with
  | (inl e, fr') => if is_caught e then (inr (), fr') else (inl e, fr')
  | (inr _, fr') => (inr (), fr')
  end).

(** [for key in keys: body] *)
Fixpoint for_each (keys : list string) (body : string → L unit) : L unit :=
  match keys with
  | [] => mret ()
  | key :: keys' => _ ← body key; for_each keys' body
  end.

(** The body of the loop. *)
Definition load_one (key : string) : L unit :=
  try_except_ValueError (
    za ← call (zarr_open_array key);
    da ← call (dask_from_zarr za);
    _ ← append_dask_array da;
    n ← builtin (Py.int key);
    append_label n).

Definition load_as_dask_array (keys : list string) : L DataArray :=
  _ ← assign_dask_arrays [];
  _ ← assign_labels [];
  _ ← for_each keys load_one;
  arrays ← read_dask_arrays;
  stacked ← call (dask_stack arrays);
  time ← read_labels;
  call (xr_DataArray stacked time).

End Load.

Arguments Run {_ A} _.
Arguments run {_ A} _ _.

End Load.

(** Sample libraries, for running the function: an array is the key it
    was opened from, a stack the list of its arrays, and the world counts
    the calls; opening "missing" raises a [ValueError] and opening
    "broken" an exception of another kind. *)
#[global] Instance sample_libs : Libs := {|
  World := nat;
  LibError := string;
  is_ValueError := λ e, bool_decide (e = "ValueError");
  ZarrArray := string;
  DaskArray := list string;
  DataArray := list string * list Z;
  zarr_open_array := λ key w,
    (if decide (key = "missing") then inl "ValueError"
     else if decide (key = "broken") then inl "ConnectionError"
     else inr key, S w);
  dask_from_zarr := λ za w, (inr [za], S w);
  dask_stack := λ arrays w, (inr (concat arrays), S w);
  xr_DataArray := λ stacked time w, (inr (stacked, time), S w);
|}.

(** * Properties *)

(** ** The builtins on a few inputs *)

Example split_examples :
  Py.split "/" "10/a" = ["10"; "a"] ∧
  Py.split "/" ".zgroup" = [".zgroup"] ∧
  Py.split "/" "a//b/" = ["a"; ""; "b"; ""] ∧
  Py.split "/" "" = [""].
Proof. by repeat split. Qed.

Example getitem_examples :
  Py.getitem ["a"; "b"; "c"] 0 = Ok "a" ∧
  Py.getitem ["a"; "b"; "c"] (-1) = Ok "c" ∧
  Py.getitem ["a"; "b"; "c"] 3 = Raise IndexError ∧
  Py.getitem ["a"; "b"; "c"] (-4) = Raise IndexError ∧
  Py.getitem (A := string) [] (-1) = Raise IndexError.
Proof. by repeat split. Qed.

Example int_examples :
  Py.parse_int <$> ["12"; "007"; " 12 "; "+7"; "-5"; "1_000"] =
    [Some 12; Some 7; Some 12; Some 7; Some (-5); Some 1000] ∧
  Py.parse_int <$> [""; " "; "7x"; ".zgroup"; "1__0"; "_1"; "1_"; "- 5"; "1 2"; "0x10"; "1.5"] =
    [None; None; None; None; None; None; None; None; None; None; None].
Proof. by split. Qed.

Example list_remove_examples :
  Py.list_remove "b" ["a"; "b"; "c"; "b"] = Ok ["a"; "c"; "b"] ∧
  Py.list_remove "z" ["a"; "b"] = Raise ValueError_remove.
Proof. by split. Qed.

Example list_sort_examples :
  Py.list_sort Py.int ["10"; "2"; "02"; "1"; "002"] = Ok ["1"; "2"; "02"; "002"; "10"] ∧
  Py.list_sort Py.int ["3"; "x"; "1"; "y"] = Raise (ValueError_int "x").
Proof. by split. Qed.

(** ** Results *)

Lemma returns_Ok {A} (a : A) : returns (Ok a).
Proof. by exists a. Qed.

Lemma raises_not_returns {A} (r : result A) : raises r → ¬ returns r.
Proof. intros [e ->] [a ?]. discriminate. Qed.

Lemma bind_Ok {A B} (f : A → result B) (m : result A) (b : B) :
  m ≫= f = Ok b ↔ ∃ a, m = Ok a ∧ f a = Ok b.
Proof.
  destruct m as [a|e]; simpl.
  - split; [by exists a | by intros (? & [= ->] & ?)].
  - split; [done | by intros (? & ? & ?)].
Qed.

Lemma mapM_Ok_fmap {A B} (f : A → result B) (g : A → B) (l : list A) :
  (∀ x, x ∈ l → f x = Ok (g x)) → mapM f l = Ok (g <$> l).
Proof.
  induction l as [|x l IH]; intros Hf; [done|].
  cbn. rewrite (Hf x) by left. cbn.
  rewrite IH; [done|]. intros y Hy. apply Hf. by right.
Qed.

(** [mapM] stops at the first call that raises. *)
Lemma mapM_result_cases {A B} (f : A → result B) (l : list A) :
  match mapM f l with
  | Ok ys => Forall2 (λ x y, f x = Ok y) l ys
  | Raise e => ∃ x, x ∈ l ∧ f x = Raise e
  end.
Proof.
  induction l as [|x l IH]; cbn; [constructor|].
  destruct (f x) as [y|e] eqn:Hx; cbn.
  - destruct (mapM f l) as [ys|e]; cbn.
    + by constructor.
    + destruct IH as (z & ? & ?). exists z. split; [by right | done].
  - exists x. split; [by left | done].
Qed.

(** ** [split] and indexing *)

Lemma getitem_nonneg {A} (l : list A) (i : Z) :
  0 ≤ i →
  Py.getitem l i = match l !! Z.to_nat i with
                   | Some x => Ok x
                   | None => Raise IndexError
                   end.
Proof.
  intros Hi. unfold Py.getitem.
  destruct (i <? 0) eqn:Hneg; [apply Z.ltb_lt in Hneg; lia|].
  rewrite Hneg. simpl.
  destruct (Z.of_nat (length l) <=? i) eqn:Hle; [|done].
  apply Z.leb_le in Hle.
  rewrite lookup_ge_None_2; [done | lia].
Qed.

Lemma getitem_last {A} (l : list A) :
  Py.getitem l (-1) = match last l with
                      | Some x => Ok x
                      | None => Raise IndexError
                      end.
Proof.
  unfold Py.getitem. change (-1 <? 0) with true. cbv iota.
  destruct l as [|x l]; [done|].
  set (n := Z.of_nat (length (x :: l))).
  assert (0 < n) by (subst n; simpl; lia).
  destruct (-1 + n <? 0) eqn:H1; [apply Z.ltb_lt in H1; lia|].
  destruct (n <=? -1 + n) eqn:H2; [apply Z.leb_le in H2; lia|].
  simpl. rewrite last_lookup.
  replace (Z.to_nat (-1 + n)) with (pred (length (x :: l))) by (subst n; simpl; lia).
  by destruct (_ !! _).
Qed.

Lemma before_first_split (sep : ascii) (s : string) :
  ∃ p ps, Py.split sep s = p :: ps ∧ before_first sep s p.
Proof.
  induction s as [|c r (p & ps & Hsplit & Hp)]; simpl.
  - exists EmptyString, []. split; [done|]. left. by split; [intros []|].
  - destruct (decide (c = sep)) as [->|Hc].
    + exists EmptyString, (Py.split sep r). split; [done|].
      right. exists r. by split; [|intros []].
    + rewrite Hsplit. exists (String c p), ps. split; [done|].
      destruct Hp as [[Hno ->]|(rest & -> & Hno)].
      * left. split; [|done]. simpl. tauto.
      * right. exists rest. split; [done|]. simpl. tauto.
Qed.

(** [before_first] determines the prefix. *)
Lemma before_first_unique (sep : ascii) (s p q : string) :
  before_first sep s p → before_first sep s q → p = q.
Proof.
  revert p q. induction s as [|c r IH]; intros p q Hp Hq.
  - destruct Hp as [[_ ->]|(rp & Hp & _)], Hq as [[_ ->]|(rq & Hq & _)];
      try done; by (destruct p + destruct q).
  - assert (∀ p, before_first sep (String c r) p →
        (c = sep ∧ p = EmptyString) ∨
        (c ≠ sep ∧ ∃ p', p = String c p' ∧ before_first sep r p')) as Hinv.
    { clear. intros p [[Hno ->]|(rest & Heq & Hno)].
      - right. simpl in Hno. split; [tauto|]. exists r. split; [done|].
        left. split; [tauto|done].
      - destruct p as [|d p']; simpl in Heq.
        + injection Heq as -> _. by left.
        + injection Heq as -> ->. simpl in Hno. right. split; [tauto|].
          exists p'. split; [done|]. right. exists rest. split; [done|tauto]. }
    destruct (Hinv p Hp) as [[? ->]|[? (p' & -> & Hp')]],
             (Hinv q Hq) as [[? ->]|[? (q' & -> & Hq')]]; try done.
    f_equal. by apply IH.
Qed.

Lemma candidate_before_first (s : string) : before_first "/" s (candidate s).
Proof.
  unfold candidate. by destruct (before_first_split "/" s) as (p & ps & -> & ?).
Qed.

Lemma getitem_split_candidate (s : string) :
  Py.getitem (Py.split "/" s) 0 = Ok (candidate s).
Proof.
  unfold candidate. destruct (before_first_split "/" s) as (p & ps & -> & _).
  by rewrite getitem_nonneg.
Qed.

Lemma candidates_fmap (keylist : list string) :
  candidates keylist = Ok (candidate <$> keylist).
Proof.
  apply mapM_Ok_fmap. intros s _. apply getitem_split_candidate.
Qed.

Lemma candidate_no_sep (s : string) : ¬ occurs "/" s → candidate s = s.
Proof.
  intros Hno. apply (before_first_unique "/" s); [apply candidate_before_first|].
  by left.
Qed.

(** ** [list.remove] *)

Lemma list_remove_cases (x : string) (l : list string) :
  match Py.list_remove x l with
  | Ok l' => (x ∈ l)
  | Raise e => (x ∉ l) ∧ e = ValueError_remove
  end.
Proof.
  induction l as [|y l IH]; simpl.
  - split; [apply not_elem_of_nil | done].
  - destruct (decide (y = x)) as [->|Hne]; [left|].
    destruct (Py.list_remove x l); simpl.
    + by right.
    + destruct IH as [Hx ->]. split; [|done].
      rewrite elem_of_cons. intros [->|?]; done.
Qed.

Lemma filter_Forall_id {A} (P : A → Prop) `{∀ x, Decision (P x)} (l : list A) :
  Forall P l → filter P l = l.
Proof.
  induction 1 as [|x l Hx _ IH]; [done|].
  by rewrite filter_cons_True, IH.
Qed.

(** On a list without repetitions, removing the first occurrence removes
    every occurrence. *)
Lemma list_remove_NoDup (x : string) (l : list string) :
  NoDup l → x ∈ l → Py.list_remove x l = Ok (filter (λ y, y ≠ x) l).
Proof.
  induction 1 as [|y l Hy Hl IH]; [by intros ?%elem_of_nil|].
  intros Hx. simpl. destruct (decide (y = x)) as [->|Hne].
  - rewrite filter_cons_False by (intros ?; done).
    f_equal. symmetry. apply filter_Forall_id, Forall_forall.
    intros z Hz ->. done.
  - rewrite filter_cons_True by done.
    apply elem_of_cons in Hx as [->|Hx]; [done|].
    by rewrite IH.
Qed.

(** ** [list.sort] *)

Lemma insert_by_key_perm (kx : Z * string) (l : list (Z * string)) :
  Py.insert_by_key kx l ≡ₚ kx :: l.
Proof.
  induction l as [|ky l IH]; simpl; [done|].
  destruct (ky.1 <? kx.1); [|done].
  rewrite IH. apply Permutation_swap.
Qed.

Lemma stable_sort_perm (l : list (Z * string)) : Py.stable_sort l ≡ₚ l.
Proof.
  induction l as [|kx l IH]; simpl; [done|].
  by rewrite insert_by_key_perm, IH.
Qed.

Lemma insert_by_key_sorted (kx : Z * string) (l : list (Z * string)) :
  StronglySorted key_le l → StronglySorted key_le (Py.insert_by_key kx l).
Proof.
  induction 1 as [|ky l Hl IH Hky]; simpl.
  - repeat constructor.
  - destruct (ky.1 <? kx.1) eqn:Hlt.
    + apply Z.ltb_lt in Hlt. constructor; [done|].
      rewrite insert_by_key_perm. constructor; [unfold key_le; lia | done].
    + apply Z.ltb_ge in Hlt. constructor; [by constructor|].
      constructor; [done|].
      eapply Forall_impl; [exact Hky|]. unfold key_le. intros; lia.
Qed.

Lemma stable_sort_sorted (l : list (Z * string)) :
  StronglySorted key_le (Py.stable_sort l).
Proof.
  induction l as [|kx l IH]; simpl; [constructor|].
  by apply insert_by_key_sorted.
Qed.

(** The sort is stable: the pairs of any one key keep their order. *)
Lemma insert_by_key_stable (k : Z) (kx : Z * string) (l : list (Z * string)) :
  filter (λ p, p.1 = k) (Py.insert_by_key kx l) =
  filter (λ p, p.1 = k) (kx :: l).
Proof.
  induction l as [|ky l IH]; simpl; [done|].
  destruct (ky.1 <? kx.1) eqn:Hlt; [|done].
  apply Z.ltb_lt in Hlt.
  rewrite !filter_cons, IH, !filter_cons.
  repeat case_decide; (done || lia).
Qed.

Lemma stable_sort_stable (k : Z) (l : list (Z * string)) :
  filter (λ p, p.1 = k) (Py.stable_sort l) = filter (λ p, p.1 = k) l.
Proof.
  induction l as [|kx l IH]; simpl; [done|].
  by rewrite insert_by_key_stable, !filter_cons, IH.
Qed.

Lemma StronglySorted_fmap_Forall {A B} (f : A → B) (P : A → Prop)
    (R : relation A) (R' : relation B) (l : list A) :
  (∀ x y, P x → P y → R x y → R' (f x) (f y)) →
  Forall P l → StronglySorted R l → StronglySorted R' (f <$> l).
Proof.
  intros HR HP Hs. induction Hs as [|x l Hl IH Hx]; csimpl; [constructor|].
  apply Forall_cons in HP as [Px HP].
  constructor; [by apply IH|].
  rewrite Forall_fmap. apply Forall_forall. intros y Hy.
  rewrite Forall_forall in Hx, HP. simpl. by apply HR; auto.
Qed.

Lemma Forall2_zip_keys (l : list string) (zs : list Z) :
  Forall2 (λ s z, Py.int s = Ok z) l zs →
  Forall (λ p, Py.parse_int p.2 = Some p.1) (zip zs l).
Proof.
  induction 1 as [|s z l zs Hs _ IH]; simpl; constructor; [|done].
  unfold Py.int in Hs. simpl. by destruct (Py.parse_int s); simplify_eq.
Qed.

(** The sort returns the same keys in ascending numeric order, or raises
    for a key [int] refuses. *)
Lemma list_sort_int_cases (l : list string) :
  match Py.list_sort Py.int l with
  | Ok l' =>
      l' ≡ₚ l ∧ StronglySorted numeric_le l' ∧
      Forall (λ s, Py.parse_int s ≠ None) l
  | Raise e => ∃ s, s ∈ l ∧ Py.parse_int s = None ∧ e = ValueError_int s
  end.
Proof.
  unfold Py.list_sort.
  pose proof (mapM_result_cases Py.int l) as Hkeys.
  destruct (mapM Py.int l) as [zs|e]; cbn.
  - split_and!.
    + rewrite stable_sort_perm, snd_zip; [done|].
      apply Forall2_length in Hkeys. lia.
    + apply (StronglySorted_fmap_Forall snd
               (λ p, Py.parse_int p.2 = Some p.1) key_le).
      * intros [x a] [y b] Ha Hb Hle. by exists x, y.
      * rewrite stable_sort_perm. by apply Forall2_zip_keys.
      * apply stable_sort_sorted.
    + clear -Hkeys. induction Hkeys as [|s z l zs Hs _ IH]; constructor; [|done].
      unfold Py.int in Hs. by destruct (Py.parse_int s).
  - destruct Hkeys as (s & Hs & Hraise). exists s. split; [done|].
    unfold Py.int in Hraise. destruct (Py.parse_int s); by simplify_eq.
Qed.

Lemma numeric_le_lt (l : list string) :
  NoDup l →
  (∀ a b, a ∈ l → b ∈ l → Py.parse_int a = Py.parse_int b → a = b) →
  StronglySorted numeric_le l → StronglySorted numeric_lt l.
Proof.
  intros Hnd Hinj Hs. induction Hs as [|a l Hl IH Ha]; [constructor|].
  apply NoDup_cons in Hnd as [Hal Hnd].
  constructor.
  - apply IH; [done|]. intros x y Hx Hy. apply Hinj; by right.
  - apply Forall_forall. intros b Hb.
    rewrite Forall_forall in Ha. destruct (Ha b Hb) as (x & y & Hx & Hy & Hle).
    exists x, y. split_and!; [done..|].
    destruct (decide (x = y)) as [->|]; [|lia].
    assert (a = b) as -> by (apply Hinj; [by left | by right | congruence]).
    done.
Qed.

(** ** Lists given by their elements *)

Lemma NoDup_singleton_elems {A} (l : list A) (a : A) :
  NoDup l → (∀ c, c ∈ l ↔ c = a) → l = [a].
Proof.
  intros Hnd Hel. apply Permutation_singleton_r, NoDup_Permutation; [done| |].
  - apply NoDup_singleton.
  - intros c. by rewrite Hel, list_elem_of_singleton.
Qed.

Lemma NoDup_pair_elems {A} (l : list A) (a b : A) :
  a ≠ b → NoDup l → (∀ c, c ∈ l ↔ c = a ∨ c = b) → l = [a; b] ∨ l = [b; a].
Proof.
  intros Hab Hnd Hel. apply Permutation_length_2_inv.
  symmetry. apply NoDup_Permutation; [done| |].
  - apply NoDup_cons. split; [by intros ->%list_elem_of_singleton|].
    apply NoDup_singleton.
  - intros c. by rewrite Hel, elem_of_cons, list_elem_of_singleton.
Qed.

(** ** The two helpers *)

Section Facts.
Context `{Interp}.

Lemma get_all_keys_unfold (keylist : list string) :
  get_all_keys keylist =
    (keys ← Py.list_remove zgroup (list_of_set (candidate <$> keylist));
     Py.list_sort Py.int keys).
Proof.
  unfold get_all_keys. rewrite candidates_fmap. cbn.
  destruct (Py.list_remove _ _); cbn; [|done].
  by destruct (Py.list_sort _ _).
Qed.

(** Every outcome of [get_all_keys], by what the candidates are. *)
Lemma get_all_keys_cases (keylist : list string) :
  match get_all_keys keylist with
  | Ok l =>
      zgroup ∈ candidate <$> keylist ∧ NoDup l ∧
      (∀ c, c ∈ l ↔ c ∈ candidate <$> keylist ∧ c ≠ zgroup) ∧
      StronglySorted numeric_le l ∧
      (∀ c, c ∈ l → Py.parse_int c ≠ None)
  | Raise ValueError_remove => (zgroup ∉ candidate <$> keylist)
  | Raise (ValueError_int s) =>
      zgroup ∈ candidate <$> keylist ∧ s ∈ candidate <$> keylist ∧
      s ≠ zgroup ∧ Py.parse_int s = None
  | Raise IndexError => False
  end.
Proof.
  rewrite get_all_keys_unfold. set (cs := candidate <$> keylist).
  pose proof (list_remove_cases zgroup (list_of_set cs)) as Hrem.
  destruct (Py.list_remove zgroup (list_of_set cs)) as [keys|e] eqn:Hkeys.
  - rewrite list_remove_NoDup in Hkeys
      by (done || apply list_of_set_NoDup).
    injection Hkeys as <-. rewrite list_of_set_elem in Hrem. cbn.
    set (keys := filter _ _).
    assert (∀ c, c ∈ keys ↔ c ∈ cs ∧ c ≠ zgroup) as Hel.
    { intros c. unfold keys.
      rewrite list_elem_of_filter, list_of_set_elem. tauto. }
    pose proof (list_sort_int_cases keys) as Hsort.
    destruct (Py.list_sort Py.int keys) as [l|e].
    + destruct Hsort as (Hperm & Hsorted & Hint).
      split_and!; [done| | |done|].
      * rewrite Hperm. apply NoDup_filter, list_of_set_NoDup.
      * intros c. by rewrite Hperm.
      * intros c Hc. rewrite Hperm in Hc.
        rewrite Forall_forall in Hint. by apply Hint.
    + destruct Hsort as (s & Hs & Hnone & ->).
      apply Hel in Hs as [? ?]. done.
  - destruct Hrem as [Hno ->]. cbn. by rewrite list_of_set_elem in Hno.
Qed.

Lemma get_all_keys_Ok (keylist l : list string) :
  get_all_keys keylist = Ok l →
  zgroup ∈ candidate <$> keylist ∧ NoDup l ∧
  (∀ c, c ∈ l ↔ c ∈ candidate <$> keylist ∧ c ≠ zgroup) ∧
  StronglySorted numeric_le l ∧
  (∀ c, c ∈ l → Py.parse_int c ≠ None).
Proof.
  intros Heq. pose proof (get_all_keys_cases keylist) as Hc.
  by rewrite Heq in Hc.
Qed.

Lemma get_all_keys_returns (keylist : list string) :
  zgroup ∈ candidate <$> keylist →
  (∀ c, c ∈ candidate <$> keylist → c ≠ zgroup → Py.parse_int c ≠ None) →
  returns (get_all_keys keylist).
Proof.
  intros Hz Hint. pose proof (get_all_keys_cases keylist) as Hc.
  destruct (get_all_keys keylist) as [l|[|s|]]; [apply returns_Ok|done| |done].
  destruct Hc as (_ & Hs & Hne & Hnone). by destruct (Hint s).
Qed.

Lemma get_all_keys_no_zgroup (keylist : list string) :
  zgroup ∉ candidate <$> keylist →
  get_all_keys keylist = Raise ValueError_remove.
Proof.
  intros Hno. pose proof (get_all_keys_cases keylist) as Hc.
  destruct (get_all_keys keylist) as [l|[|s|]]; [|done| |done].
  - by destruct Hc as [? _].
  - by destruct Hc as [? _].
Qed.

Lemma get_all_keys_Ok_nil (keylist : list string) :
  get_all_keys keylist = Ok [] ↔
  keylist ≠ [] ∧ ∀ k, k ∈ keylist → candidate k = zgroup.
Proof.
  split.
  - intros (Hz & _ & Hel & _ & _)%get_all_keys_Ok. split.
    + intros ->. by apply elem_of_nil in Hz.
    + intros k Hk. destruct (decide (candidate k = zgroup)) as [|Hne]; [done|].
      exfalso. apply (not_elem_of_nil (candidate k)), Hel.
      split; [by apply list_elem_of_fmap_2 | done].
  - intros [Hne Hall].
    assert (zgroup ∈ candidate <$> keylist) as Hz.
    { destruct keylist as [|k ks]; [done|]. csimpl.
      rewrite (Hall k) by left. left. }
    destruct (get_all_keys_returns keylist Hz) as [l Hl].
    { intros c (k & -> & Hk)%list_elem_of_fmap Hc. by destruct Hc; apply Hall. }
    rewrite Hl. f_equal. apply elem_of_nil_inv. intros c Hc.
    apply get_all_keys_Ok in Hl as (_ & _ & Hel & _ & _).
    apply Hel in Hc as [(k & -> & Hk)%list_elem_of_fmap Hc].
    by destruct Hc; apply Hall.
Qed.

Lemma get_most_recent_key_unfold (keylist : list string) :
  get_most_recent_key keylist =
    (keys ← get_all_keys keylist;
     match last keys with
     | Some k => Ok k
     | None => Raise IndexError
     end).
Proof.
  unfold get_most_recent_key. destruct (get_all_keys keylist); cbn; [|done].
  apply getitem_last.
Qed.

End Facts.

(** ** The helpers on list objects *)

Section ImpFacts.
Context `{Interp}.

Lemma run_bind {A B} (m : Imp.M A) (f : A → Imp.M B) (h : Imp.heap) :
  Imp.run (m ≫= f) h =
    match Imp.run m h with
    | (Ok a, h') => Imp.run (f a) h'
    | (Raise e, h') => (Raise e, h')
    end.
Proof. done. Qed.

(** A run of [Imp.get_all_keys], step by step: two new objects, the
    second one changed in place. *)
Lemma run_get_all_keys (store : Imp.ref) (h : Imp.heap) :
  Imp.run (Imp.get_all_keys store) h =
    let cs := candidate <$> (h !!! store) in
    match Py.list_remove zgroup (list_of_set cs) with
    | Raise e => (Raise e, h ++ [cs; list_of_set cs])
    | Ok v =>
        match Py.list_sort Py.int v with
        | Raise e => (Raise e, h ++ [cs; v])
        | Ok v' => (Ok (S (length h)), h ++ [cs; v'])
        end
    end.
Proof.
  unfold Imp.get_all_keys, Imp.keylist, Imp.comprehension, Imp.list_set,
    Imp.remove, Imp.sort.
  cbn. rewrite candidates_fmap. cbn.
  set (cs := candidate <$> (h !!! store)).
  assert (length (h ++ [cs]) = S (length h)) as Hlen
    by (rewrite length_app; simpl; lia).
  rewrite Hlen.
  assert ((h ++ [cs]) !!! length h = cs) as ->
    by (by apply list_lookup_total_middle).
  assert (∀ v, ((h ++ [cs]) ++ [v]) !!! S (length h) = v) as Hget.
  { intros v. apply list_lookup_total_middle. by rewrite Hlen. }
  assert (∀ v w, <[S (length h) := w]> ((h ++ [cs]) ++ [v]) = h ++ [cs; w])
    as Hput.
  { intros v w. rewrite <- Hlen, <- (Nat.add_0_r (length (h ++ [cs]))).
    rewrite insert_app_r. simpl. by rewrite <- app_assoc. }
  rewrite Hget.
  destruct (Py.list_remove zgroup (list_of_set cs)) as [v|e]; cbn.
  - rewrite Hput.
    replace (h ++ [cs; v]) with ((h ++ [cs]) ++ [v])
      by (by rewrite <- app_assoc).
    rewrite Hget.
    destruct (Py.list_sort Py.int v) as [v'|e]; cbn; [|done].
    by rewrite Hput.
  - by rewrite <- app_assoc.
Qed.

(** The call leaves every object of the heap as it was and only adds
    new ones; what it returns is what [get_all_keys] computes from the
    contents of the store's listing. *)
Lemma run_get_all_keys_spec (store : Imp.ref) (h : Imp.heap) :
  h `prefix_of` (Imp.run (Imp.get_all_keys store) h).2 ∧
  Imp.outcome (Imp.run (Imp.get_all_keys store) h) =
    get_all_keys (h !!! store) ∧
  (∀ r, (Imp.run (Imp.get_all_keys store) h).1 = Ok r → (length h ≤ r)%nat).
Proof.
  rewrite run_get_all_keys, get_all_keys_unfold. cbv zeta.
  set (cs := candidate <$> (h !!! store)).
  destruct (Py.list_remove zgroup (list_of_set cs)) as [v|e]; cbn.
  - destruct (Py.list_sort Py.int v) as [v'|e]; cbn.
    + split_and!; [by eexists| |intros r [= <-]; lia].
      unfold Imp.outcome. cbn. f_equal.
      change (h ++ [cs; v']) with (h ++ [cs] ++ [v']). rewrite app_assoc.
      apply list_lookup_total_middle. rewrite length_app. simpl. lia.
    + split_and!; [by eexists | done..].
  - split_and!; [by eexists | done..].
Qed.

Lemma run_get_most_recent_key (store : Imp.ref) (h : Imp.heap) :
  h `prefix_of` (Imp.run (Imp.get_most_recent_key store) h).2 ∧
  (Imp.run (Imp.get_most_recent_key store) h).1 =
    get_most_recent_key (h !!! store).
Proof.
  destruct (run_get_all_keys_spec store h) as (Hpre & Hout & _).
  unfold Imp.get_most_recent_key, get_most_recent_key.
  rewrite run_bind, <- Hout. unfold Imp.outcome.
  by destruct (Imp.run (Imp.get_all_keys store) h) as [[r|e] h'].
Qed.

End ImpFacts.


(** * The claims *)

Lemma StronglySorted_related {A} (R : relation A) (l : list A) (a b : A) :
  StronglySorted R l → a ∈ l → b ∈ l → a ≠ b → R a b ∨ R b a.
Proof.
  induction 1 as [|x l Hl IH Hx]; intros Ha Hb Hab; [by apply elem_of_nil in Ha|].
  rewrite Forall_forall in Hx.
  apply elem_of_cons in Ha as [->|Ha], Hb as [->|Hb]; auto. done.
Qed.

(** ** Order and distinctness of the result *)

(** C1, counterexample.  The listing [["2/a"; "02/a"; ".zgroup"]] is not
    empty and its surviving candidates, "2" and "02", are numerals that are
    not negative.  Under every order of the set [get_all_keys] returns a
    list that holds both, and that list is not strictly ascending by
    numeric value: the two keys differ as strings and denote the same
    integer. *)
Lemma get_all_keys_equal_numerals_not_strict :
  (∀ c, c ∈ candidate <$> ["2/a"; "02/a"; ".zgroup"] → c ≠ zgroup →
        non_negative_numeral c) ∧
  (∀ I : Interp, ∃ l,
     get_all_keys ["2/a"; "02/a"; ".zgroup"] = Ok l ∧
     "2" ∈ l ∧ "02" ∈ l ∧ ¬ StronglySorted numeric_lt l).
Proof.
  assert (∀ c, c ∈ candidate <$> ["2/a"; "02/a"; ".zgroup"] → c ≠ zgroup →
               non_negative_numeral c) as Hwf.
  { intros c Hc Hne. each_elem_of Hc; [| |done]; by exists 2. }
  split; [exact Hwf|]. intros I.
  destruct (get_all_keys_returns ["2/a"; "02/a"; ".zgroup"]) as [l Hl].
  { elem_of_listing. }
  { intros c Hc Hne. destruct (Hwf c Hc Hne) as (n & -> & _). done. }
  exists l. split; [done|].
  apply get_all_keys_Ok in Hl as (_ & _ & Hel & _ & _).
  assert ("2" ∈ l) as H2 by (apply Hel; split; [elem_of_listing | done]).
  assert ("02" ∈ l) as H02 by (apply Hel; split; [elem_of_listing | done]).
  split_and!; [done..|]. intros Hs.
  destruct (StronglySorted_related _ _ _ _ Hs H2 H02) as [Hlt|Hlt]; [done|..];
    destruct Hlt as (x & y & [= <-] & [= <-] & ?); lia.
Qed.

(** C1, as amended.  When ['.zgroup'] is among the candidates and every
    other candidate is a numeral that is not negative, [get_all_keys]
    returns the surviving candidates, each once (as strings), in
    non-decreasing order of numeric value; the order is strictly ascending
    when no two of the returned keys denote the same integer. *)
Theorem get_all_keys_sorted_nodup `{Interp} (keylist : list string) :
  zgroup ∈ candidate <$> keylist →
  (∀ c, c ∈ candidate <$> keylist → c ≠ zgroup → non_negative_numeral c) →
  ∃ l, get_all_keys keylist = Ok l ∧
       NoDup l ∧
       (∀ c, c ∈ l ↔ c ∈ candidate <$> keylist ∧ c ≠ zgroup) ∧
       StronglySorted numeric_le l ∧
       ((∀ a b, a ∈ l → b ∈ l → Py.parse_int a = Py.parse_int b → a = b) →
        StronglySorted numeric_lt l).
Proof.
  intros Hz Hwf.
  destruct (get_all_keys_returns keylist Hz) as [l Hl].
  { intros c Hc Hne. destruct (Hwf c Hc Hne) as (n & -> & _). done. }
  exists l. split; [done|].
  apply get_all_keys_Ok in Hl as (_ & Hnd & Hel & Hs & _).
  split_and!; [done..|]. intros Hinj. by apply numeric_le_lt.
Qed.

Lemma get_all_keys_sorted_nodup_witness :
  ∃ l, get_all_keys (H := last_seen_order) ["10/a"; "2/a"; "2/b"; ".zgroup"] = Ok l ∧
       NoDup l ∧
       (∀ c, c ∈ l ↔ c ∈ candidate <$> ["10/a"; "2/a"; "2/b"; ".zgroup"] ∧ c ≠ zgroup) ∧
       StronglySorted numeric_le l ∧
       ((∀ a b, a ∈ l → b ∈ l → Py.parse_int a = Py.parse_int b → a = b) →
        StronglySorted numeric_lt l).
Proof.
  apply (get_all_keys_sorted_nodup (H := last_seen_order)
           ["10/a"; "2/a"; "2/b"; ".zgroup"]).
  - elem_of_listing.
  - intros c Hc Hne. each_elem_of Hc; [exists 10|exists 2|exists 2|done]; done.
Defined.

(** ** Keys that [int] refuses *)

(** C2, counterexample.  In the listing [["-5/a"; ".zgroup"]] the
    surviving candidate "-5" is not a numeral of a non-negative integer,
    and still, under every order of the set, [get_all_keys] raises nothing
    and returns it: [int] reads "-5" as the integer -5. *)
Lemma get_all_keys_accepts_negative_numeral :
  ¬ non_negative_numeral "-5" ∧
  "-5" ∈ candidate <$> ["-5/a"; ".zgroup"] ∧
  (∀ I : Interp, get_all_keys ["-5/a"; ".zgroup"] = Ok ["-5"]).
Proof.
  split_and!.
  - intros (n & [= <-] & ?). lia.
  - elem_of_listing.
  - intros I. destruct (get_all_keys_returns ["-5/a"; ".zgroup"]) as [l Hl].
    { elem_of_listing. }
    { intros c Hc Hne. each_elem_of Hc; done. }
    rewrite Hl. f_equal.
    apply get_all_keys_Ok in Hl as (_ & Hnd & Hel & _ & _).
    apply NoDup_singleton_elems; [done|]. intros c. rewrite Hel. split.
    + intros [Hc Hne]. each_elem_of Hc; done.
    + intros ->. split; [elem_of_listing | done].
Qed.

(** C2, as amended.  [get_all_keys] raises the [ValueError] of [int]
    exactly when ['.zgroup'] is among the candidates and [int] refuses some
    other candidate; [int] refuses what is not a base-10 numeral, but it
    accepts a sign, blanks around the numeral and single underscores
    between digits, so a negative numeral is accepted.  A listing that
    holds "7x/a" always makes the call raise, with the [ValueError] of
    [int] when ['.zgroup'] is a candidate.  No key is skipped: when the
    call returns, every surviving candidate is in the result and is
    accepted by [int]. *)
Theorem get_all_keys_raises_int_iff `{Interp} (keylist : list string) :
  ((∃ s, get_all_keys keylist = Raise (ValueError_int s)) ↔
     zgroup ∈ candidate <$> keylist ∧
     ∃ c, c ∈ candidate <$> keylist ∧ c ≠ zgroup ∧ Py.parse_int c = None) ∧
  ("7x/a" ∈ keylist →
     raises (get_all_keys keylist) ∧
     (zgroup ∈ candidate <$> keylist →
      ∃ s, get_all_keys keylist = Raise (ValueError_int s))) ∧
  (∀ l, get_all_keys keylist = Ok l →
     ∀ c, c ∈ candidate <$> keylist → c ≠ zgroup →
          c ∈ l ∧ Py.parse_int c ≠ None).
Proof.
  pose proof (get_all_keys_cases keylist) as Hc.
  assert (zgroup ∈ candidate <$> keylist →
          (∃ c, c ∈ candidate <$> keylist ∧ c ≠ zgroup ∧ Py.parse_int c = None) →
          ∃ s, get_all_keys keylist = Raise (ValueError_int s)) as Hraise.
  { intros Hz (c & Hcs & Hne & Hnone).
    destruct (get_all_keys keylist) as [l|[|s|]]; [|done|by exists s|done].
    destruct Hc as (_ & _ & Hel & _ & Hint).
    destruct (Hint c); [by apply Hel | done]. }
  split_and!.
  - split; [|by intros [? ?]; apply Hraise].
    intros [s Hs]. rewrite Hs in Hc. destruct Hc as (? & ? & ? & ?).
    split; [done|]. by exists s.
  - intros H7x.
    assert ("7x" ∈ candidate <$> keylist) as Hcand
      by (by apply (list_elem_of_fmap_2' candidate _ "7x/a")).
    assert (zgroup ∈ candidate <$> keylist →
            ∃ s, get_all_keys keylist = Raise (ValueError_int s)) as Hint.
    { intros Hz. apply Hraise; [done|]. by exists "7x". }
    split; [|done].
    destruct (decide (zgroup ∈ candidate <$> keylist)) as [Hz|Hz].
    + destruct (Hint Hz) as [s Hs]. by exists (ValueError_int s).
    + exists ValueError_remove. by apply get_all_keys_no_zgroup.
  - intros l Hl c Hcs Hne. rewrite Hl in Hc.
    destruct Hc as (_ & _ & Hel & _ & Hint).
    assert (c ∈ l) by (by apply Hel). split; [done | by apply Hint].
Qed.

Lemma get_all_keys_raises_int_iff_witness :
  raises (get_all_keys (H := last_seen_order) ["3/a"; "7x/a"; ".zgroup"]) ∧
  ∃ s, get_all_keys (H := last_seen_order) ["3/a"; "7x/a"; ".zgroup"] =
         Raise (ValueError_int s).
Proof.
  destruct (get_all_keys_raises_int_iff (H := last_seen_order)
              ["3/a"; "7x/a"; ".zgroup"]) as (_ & H7x & _).
  destruct H7x as [Hr Hint]; [elem_of_listing|].
  split; [exact Hr|]. apply Hint. elem_of_listing.
Defined.

(** ** The reserved key *)

(** C6.  Whenever [get_all_keys] returns, ['.zgroup'] is not in the list
    it returns, however many keys of the listing have it as their
    candidate. *)
Theorem get_all_keys_excludes_zgroup `{Interp} (keylist l : list string) :
  get_all_keys keylist = Ok l → zgroup ∉ l.
Proof.
  intros (_ & _ & Hel & _ & _)%get_all_keys_Ok Hz.
  by apply Hel in Hz as [_ ?].
Qed.

Lemma get_all_keys_excludes_zgroup_witness :
  ".zgroup" ∉ ["1"; "3"].
Proof.
  apply (get_all_keys_excludes_zgroup (H := last_seen_order)
           [".zgroup"; "3/x"; ".zgroup/.zattrs"; "1/0.0"; ".zgroup"]).
  vm_compute. reflexivity.
Defined.

(** C10.  When no key of the listing has ['.zgroup'] as its candidate,
    [get_all_keys] raises the [ValueError] of [list.remove] and returns no
    list: the removal is not guarded by a membership test. *)
Theorem get_all_keys_missing_zgroup_raises `{Interp} (keylist : list string) :
  zgroup ∉ candidate <$> keylist →
  get_all_keys keylist = Raise ValueError_remove ∧
  ¬ returns (get_all_keys keylist).
Proof.
  intros Hz. rewrite (get_all_keys_no_zgroup keylist Hz).
  split; [done|]. apply raises_not_returns. by exists ValueError_remove.
Qed.

Lemma get_all_keys_missing_zgroup_raises_witness :
  get_all_keys (H := last_seen_order) ["1/a"; "2/a"] = Raise ValueError_remove ∧
  ¬ returns (get_all_keys (H := last_seen_order) ["1/a"; "2/a"]).
Proof.
  apply (get_all_keys_missing_zgroup_raises (H := last_seen_order) ["1/a"; "2/a"]).
  intros Hz. each_elem_of Hz; done.
Defined.

(** ** Empty listings and empty results *)

(** C4, counterexample.  On the empty listing [get_all_keys] raises the
    [ValueError] of [list.remove], under every order of the set; it never
    returns. *)
Lemma get_all_keys_empty_listing_raises :
  (∀ I : Interp, get_all_keys [] = Raise ValueError_remove) ∧
  ¬ (∃ I : Interp, returns (get_all_keys [])).
Proof.
  assert (∀ I : Interp, get_all_keys [] = Raise ValueError_remove) as Hraise.
  { intros I. apply get_all_keys_no_zgroup. apply not_elem_of_nil. }
  split; [done|]. intros [I [l Hl]]. by rewrite Hraise in Hl.
Qed.

(** C4, as amended.  On the empty listing [get_all_keys] raises the
    [ValueError] of [list.remove].  It returns the empty list, and raises
    nothing, exactly when the listing is not empty and ['.zgroup'] is the
    candidate of every key in it. *)
Theorem get_all_keys_returns_empty_iff `{Interp} (keylist : list string) :
  (keylist = [] → get_all_keys keylist = Raise ValueError_remove) ∧
  (get_all_keys keylist = Ok [] ↔
     keylist ≠ [] ∧ ∀ k, k ∈ keylist → candidate k = zgroup).
Proof.
  split; [|apply get_all_keys_Ok_nil].
  intros ->. apply get_all_keys_no_zgroup. apply not_elem_of_nil.
Qed.

Lemma get_all_keys_returns_empty_iff_witness :
  get_all_keys (H := last_seen_order) [".zgroup"; ".zgroup/.zattrs"] = Ok [].
Proof.
  apply (get_all_keys_returns_empty_iff (H := last_seen_order)
           [".zgroup"; ".zgroup/.zattrs"]).
  split; [done|]. intros k Hk. by each_elem_of Hk.
Defined.

(** C3, counterexample.  On the empty listing no identifier remains
    either, and [get_most_recent_key] does not raise [IndexError]: under
    every order of the set it raises the [ValueError] of [list.remove],
    which [get_all_keys] raises before anything is indexed. *)
Lemma get_most_recent_key_empty_listing_raises :
  (∀ I : Interp, get_most_recent_key [] = Raise ValueError_remove) ∧
  ¬ (∃ I : Interp, get_most_recent_key [] = Raise IndexError).
Proof.
  assert (∀ I : Interp, get_most_recent_key [] = Raise ValueError_remove)
    as Hraise.
  { intros I. rewrite get_most_recent_key_unfold, get_all_keys_no_zgroup;
      [done | apply not_elem_of_nil]. }
  split; [done|]. intros [I HI]. by rewrite Hraise in HI.
Qed.

(** C3, as amended.  [get_most_recent_key] raises [IndexError], the error
    of [keys[-1]] on an empty list, exactly when the listing is not empty
    and ['.zgroup'] is the candidate of every key in it, that is, when
    the removal of ['.zgroup'] took place and left nothing; this is so in
    particular for a listing that is not empty and holds no key but
    ['.zgroup'].  On the empty listing it raises the [ValueError] of
    [list.remove].  In both cases nothing is returned. *)
Theorem get_most_recent_key_index_error_iff `{Interp} (keylist : list string) :
  (get_most_recent_key keylist = Raise IndexError ↔
     keylist ≠ [] ∧ ∀ k, k ∈ keylist → candidate k = zgroup) ∧
  (keylist ≠ [] → (∀ k, k ∈ keylist → k = zgroup) →
   get_most_recent_key keylist = Raise IndexError) ∧
  (keylist = [] → get_most_recent_key keylist = Raise ValueError_remove) ∧
  (raises (get_most_recent_key keylist) →
   ¬ returns (get_most_recent_key keylist)).
Proof.
  assert (get_most_recent_key keylist = Raise IndexError ↔
          get_all_keys keylist = Ok []) as Hnil.
  { rewrite get_most_recent_key_unfold.
    pose proof (get_all_keys_cases keylist) as Hc.
    destruct (get_all_keys keylist) as [l|e]; cbn.
    - destruct (last l) as [k|] eqn:Hlast.
      + split; [done|]. intros [= ->]. done.
      + by apply last_None in Hlast as ->.
    - split; [|done]. intros [= ->]. done. }
  split_and!.
  - by rewrite Hnil, get_all_keys_Ok_nil.
  - intros Hne Hall. apply Hnil, get_all_keys_Ok_nil. split; [done|].
    intros k Hk. by rewrite (Hall k Hk).
  - intros ->. rewrite get_most_recent_key_unfold, get_all_keys_no_zgroup;
      [done | apply not_elem_of_nil].
  - apply raises_not_returns.
Qed.

Lemma get_most_recent_key_index_error_iff_witness :
  get_most_recent_key (H := last_seen_order) [".zgroup"; ".zgroup"] =
    Raise IndexError.
Proof.
  destruct (get_most_recent_key_index_error_iff (H := last_seen_order)
              [".zgroup"; ".zgroup"]) as (_ & Honly & _).
  apply Honly; [done|]. intros k Hk. by each_elem_of Hk.
Defined.

(** ** The most recent key *)

(** C5.  When [get_all_keys] returns a list that is not empty,
    [get_most_recent_key] on the same listing returns the last element of
    that list. *)
Theorem get_most_recent_key_last `{Interp} (keylist l : list string) :
  get_all_keys keylist = Ok l → l ≠ [] →
  ∃ k, get_most_recent_key keylist = Ok k ∧ last l = Some k.
Proof.
  intros Hl Hne. rewrite get_most_recent_key_unfold, Hl. cbn.
  destruct (last l) as [k|] eqn:Hlast; [by exists k|].
  by apply last_None in Hlast.
Qed.

Lemma get_most_recent_key_last_witness :
  ∃ k, get_most_recent_key (H := last_seen_order)
         ["10/a"; "2/a"; "2/b"; ".zgroup"] = Ok k ∧
       last ["2"; "10"] = Some k.
Proof.
  apply (get_most_recent_key_last (H := last_seen_order)
           ["10/a"; "2/a"; "2/b"; ".zgroup"] ["2"; "10"]).
  - vm_compute. reflexivity.
  - discriminate.
Defined.

(** ** Numeric order *)

(** C7, counterexample.  On the listing
    [["10/a"; "2/a"; "2/b"; ".meta"]] the call raises the [ValueError] of
    [list.remove], under every order of the set: the key the code removes
    is ['.zgroup'], and no key of this listing has it as its candidate.
    So the call never returns [["2"; "10"]]. *)
Lemma get_all_keys_meta_listing_raises :
  (∀ I : Interp,
     get_all_keys ["10/a"; "2/a"; "2/b"; ".meta"] = Raise ValueError_remove) ∧
  ¬ (∃ I : Interp,
       get_all_keys ["10/a"; "2/a"; "2/b"; ".meta"] = Ok ["2"; "10"]).
Proof.
  assert (∀ I : Interp,
    get_all_keys ["10/a"; "2/a"; "2/b"; ".meta"] = Raise ValueError_remove)
    as Hraise.
  { intros I. apply get_all_keys_no_zgroup. intros Hz. each_elem_of Hz; done. }
  split; [done|]. intros [I Hl]. by rewrite Hraise in Hl.
Qed.

(** C7, as amended.  With ['.zgroup'], the key the code reserves, in the
    place of ['.meta']: on [["10/a"; "2/a"; "2/b"; ".zgroup"]] the call
    returns exactly [["2"; "10"]], under every order of the set.  The
    order is by numeric value; as strings, "10" comes before "2". *)
Theorem get_all_keys_numeric_order `{Interp} :
  get_all_keys ["10/a"; "2/a"; "2/b"; ".zgroup"] = Ok ["2"; "10"] ∧
  String.compare "10" "2" = Lt.
Proof.
  split; [|done].
  destruct (get_all_keys_returns ["10/a"; "2/a"; "2/b"; ".zgroup"]) as [l Hl].
  { elem_of_listing. }
  { intros c Hc Hne. each_elem_of Hc; done. }
  rewrite Hl. f_equal.
  apply get_all_keys_Ok in Hl as (_ & Hnd & Hel & Hs & _).
  destruct (NoDup_pair_elems l "2" "10") as [->| ->]; [done..| |done|].
  - intros c. rewrite Hel. split.
    + intros [Hc Hne]. each_elem_of Hc; auto. done.
    + intros [-> | ->]; (split; [elem_of_listing | done]).
  - apply StronglySorted_inv in Hs as [_ Hle].
    apply Forall_cons in Hle as [(x & y & [= <-] & [= <-] & ?) _]. lia.
Qed.

(** ** Candidates *)

(** C8.  The candidates of a listing are, key by key, the part of the key
    before its first ['/'], or the whole key when it holds no ['/']; the
    comprehension never raises, and [get_all_keys] goes on from the set of
    exactly these candidates. *)
Theorem candidates_before_first_separator `{Interp} (keylist : list string) :
  ∃ cs, candidates keylist = Ok cs ∧
        Forall2 (before_first "/") keylist cs ∧
        get_all_keys keylist =
          (keys ← Py.list_remove zgroup (list_of_set cs);
           Py.list_sort Py.int keys).
Proof.
  exists (candidate <$> keylist). split_and!.
  - apply candidates_fmap.
  - induction keylist as [|k ks IH]; csimpl; constructor; [|done].
    apply candidate_before_first.
  - apply get_all_keys_unfold.
Qed.

(** ** Effects *)

(** C9.  A call of [get_all_keys] changes no list object that existed
    before it, the store's listing among them: it only adds objects of its
    own, and the list it returns is one of these.  What it returns, or
    raises, is what [get_all_keys] computes from the contents of the
    listing alone, so that a second call on the same listing, run in the
    heap the first one left, has the same outcome. *)
Theorem get_all_keys_pure `{Interp} (store : Imp.ref) (h : Imp.heap) :
  (store < length h)%nat →
  let run1 := Imp.run (Imp.get_all_keys store) h in
  let run2 := Imp.run (Imp.get_all_keys store) run1.2 in
  h `prefix_of` run1.2 ∧
  run1.2 `prefix_of` run2.2 ∧
  run2.2 !! store = h !! store ∧
  (∀ r, run1.1 = Ok r → (length h ≤ r)%nat) ∧
  Imp.outcome run1 = get_all_keys (h !!! store) ∧
  Imp.outcome run2 = Imp.outcome run1.
Proof.
  intros Hstore run1 run2.
  destruct (run_get_all_keys_spec store h) as ([new1 Hpre1] & Hout1 & Hnew1).
  destruct (run_get_all_keys_spec store run1.2) as ([new2 Hpre2] & Hout2 & _).
  fold run1 in Hpre1, Hout1, Hnew1. fold run2 in Hpre2, Hout2.
  split_and!.
  - by exists new1.
  - by exists new2.
  - rewrite Hpre2, Hpre1, <- app_assoc. by apply lookup_app_l.
  - done.
  - done.
  - rewrite Hout2, Hout1, Hpre1. f_equal. by apply lookup_total_app_l.
Qed.

Lemma get_all_keys_pure_witness :
  let h := [["10/a"; "2/a"; "2/b"; ".zgroup"]] in
  let run1 := Imp.run (Imp.get_all_keys (H := last_seen_order) 0%nat) h in
  let run2 := Imp.run (Imp.get_all_keys (H := last_seen_order) 0%nat) run1.2 in
  h `prefix_of` run1.2 ∧
  run1.2 `prefix_of` run2.2 ∧
  run2.2 !! 0%nat = h !! 0%nat ∧
  (∀ r, run1.1 = Ok r → (length h ≤ r)%nat) ∧
  Imp.outcome run1 = get_all_keys (H := last_seen_order) (h !!! 0%nat) ∧
  Imp.outcome run2 = Imp.outcome run1.
Proof.
  apply (get_all_keys_pure (H := last_seen_order) 0%nat
           [["10/a"; "2/a"; "2/b"; ".zgroup"]]).
  simpl. lia.
Defined.

(** * Further properties *)

(** ** When the helpers return *)

Lemma parse_int_zgroup : Py.parse_int zgroup = None.
Proof. done. Qed.

(** X1.  [get_all_keys] returns exactly when ['.zgroup'] is among the
    candidates and [int] accepts every other candidate; it never raises
    [IndexError]. *)
Theorem get_all_keys_returns_iff `{Interp} (keylist : list string) :
  (returns (get_all_keys keylist) ↔
     zgroup ∈ candidate <$> keylist ∧
     ∀ c, c ∈ candidate <$> keylist → c ≠ zgroup → Py.parse_int c ≠ None) ∧
  get_all_keys keylist ≠ Raise IndexError.
Proof.
  pose proof (get_all_keys_cases keylist) as Hc. split.
  - split; [|by intros [? ?]; apply get_all_keys_returns].
    intros [l Hl]. rewrite Hl in Hc. destruct Hc as (Hz & _ & Hel & _ & Hint).
    split; [done|]. intros c Hcs Hne. apply Hint, Hel. by split.
  - intros Heq. by rewrite Heq in Hc.
Qed.

(** ** What the order of the listing and of the set can change *)

(** X3.  The result depends on the listing only through its set of
    candidates, and on the order of the interpreter's sets only where two
    keys denote the same integer: two listings with the same candidates,
    run under any two set orders, both return or both raise; when they
    return, the two results hold the same keys, and they are the same list
    if no two returned keys denote the same integer. *)
Theorem get_all_keys_order_independent (I1 I2 : Interp)
    (keylist1 keylist2 l1 : list string) :
  (∀ c, c ∈ candidate <$> keylist1 ↔ c ∈ candidate <$> keylist2) →
  get_all_keys (H := I1) keylist1 = Ok l1 →
  ∃ l2, get_all_keys (H := I2) keylist2 = Ok l2 ∧
        l2 ≡ₚ l1 ∧
        ((∀ a b, a ∈ l1 → b ∈ l1 → Py.parse_int a = Py.parse_int b → a = b) →
         l2 = l1).
Proof.
  intros Hsame Hl1.
  apply (get_all_keys_Ok (H := I1)) in Hl1 as (Hz & Hnd1 & Hel1 & Hs1 & Hint1).
  destruct (get_all_keys_returns (H := I2) keylist2) as [l2 Hl2].
  { by apply Hsame. }
  { intros c Hc Hne. apply Hint1, Hel1. split; [by apply Hsame | done]. }
  exists l2. split; [done|].
  apply (get_all_keys_Ok (H := I2)) in Hl2 as (_ & Hnd2 & Hel2 & Hs2 & _).
  assert (l2 ≡ₚ l1) as Hperm.
  { apply NoDup_Permutation; [done..|]. intros c.
    by rewrite Hel1, Hel2, Hsame. }
  split; [done|]. intros Hinj.
  apply (StronglySorted_unique_strong numeric_le); [|done..].
  intros a b Ha Hb (x & y & Hx & Hy & Hxy) (y' & x' & Hy' & Hx' & Hyx).
  rewrite Hperm in Ha. apply Hinj; [done..|].
  assert (x = x') by congruence. assert (y = y') by congruence.
  rewrite Hx, Hy. f_equal. lia.
Qed.

Lemma get_all_keys_order_independent_witness :
  ∃ l2, get_all_keys (H := last_seen_order) ["2/b"; ".zgroup"; "10/a"; "2/a"] = Ok l2 ∧
        l2 ≡ₚ ["2"; "10"] ∧
        ((∀ a b, a ∈ ["2"; "10"] → b ∈ ["2"; "10"] →
                 Py.parse_int a = Py.parse_int b → a = b) →
         l2 = ["2"; "10"]).
Proof.
  apply (get_all_keys_order_independent last_seen_order last_seen_order
           ["10/a"; "2/a"; "2/b"; ".zgroup"] ["2/b"; ".zgroup"; "10/a"; "2/a"]).
  - intros c. simpl. rewrite !elem_of_cons. tauto.
  - vm_compute. reflexivity.
Defined.

Lemma filter_value_snd (n : Z) (ps : list (Z * string)) :
  Forall (λ p, Py.parse_int p.2 = Some p.1) ps →
  filter (λ s, Py.parse_int s = Some n) ps.*2 = (filter (λ p, p.1 = n) ps).*2.
Proof.
  induction 1 as [|[z s] ps Hp _ IH]; [done|]. simpl in Hp. csimpl.
  rewrite !filter_cons, IH. simpl. rewrite Hp.
  repeat case_decide; simplify_eq; done.
Qed.

Lemma list_sort_int_stable (keys l : list string) (n : Z) :
  Py.list_sort Py.int keys = Ok l →
  filter (λ s, Py.parse_int s = Some n) l =
  filter (λ s, Py.parse_int s = Some n) keys.
Proof.
  unfold Py.list_sort.
  pose proof (mapM_result_cases Py.int keys) as Hkeys.
  destruct (mapM Py.int keys) as [zs|e]; cbn; [|done]. intros [= <-].
  pose proof (Forall2_zip_keys keys zs Hkeys) as Hzip.
  rewrite filter_value_snd by (by rewrite stable_sort_perm).
  rewrite stable_sort_stable, <- filter_value_snd by done.
  rewrite snd_zip; [done|]. apply Forall2_length in Hkeys. lia.
Qed.

(** X4.  Keys that denote the same integer come out in the order in which
    the interpreter's set lists them: the sort is stable, so among the
    returned keys of any one numeric value nothing is reordered. *)
Theorem get_all_keys_ties_in_set_order `{Interp}
    (keylist l : list string) (n : Z) :
  get_all_keys keylist = Ok l →
  filter (λ s, Py.parse_int s = Some n) l =
  filter (λ s, Py.parse_int s = Some n) (list_of_set (candidate <$> keylist)).
Proof.
  intros Hl. pose proof Hl as (Hz & _)%get_all_keys_Ok.
  rewrite get_all_keys_unfold in Hl.
  rewrite list_remove_NoDup in Hl
    by (apply list_of_set_NoDup || by apply list_of_set_elem).
  cbn in Hl. rewrite (list_sort_int_stable _ _ n Hl).
  rewrite list_filter_filter. apply list_filter_iff.
  intros s. split; [tauto|]. intros Hs. split; [done|].
  intros ->. by rewrite parse_int_zgroup in Hs.
Qed.

Lemma get_all_keys_ties_in_set_order_witness :
  filter (λ s, Py.parse_int s = Some 2) ["1"; "2"; "02"; "10"] =
  filter (λ s, Py.parse_int s = Some 2)
    (list_of_set (Interp := last_seen_order)
       (candidate <$> ["10/a"; "2/a"; ".zgroup"; "02/a"; "1/a"])).
Proof.
  apply (get_all_keys_ties_in_set_order (H := last_seen_order)
           ["10/a"; "2/a"; ".zgroup"; "02/a"; "1/a"]).
  vm_compute. reflexivity.
Defined.

(** ** The most recent key, further *)

(** X5.  The key [get_most_recent_key] returns is a candidate of the
    listing other than ['.zgroup'], and no other such candidate denotes a
    greater integer. *)
Theorem get_most_recent_key_greatest `{Interp}
    (keylist : list string) (k : string) :
  get_most_recent_key keylist = Ok k →
  k ∈ candidate <$> keylist ∧ k ≠ zgroup ∧
  ∀ c, c ∈ candidate <$> keylist → c ≠ zgroup → numeric_le c k.
Proof.
  rewrite get_most_recent_key_unfold.
  destruct (get_all_keys keylist) as [l|e] eqn:Hl; cbn; [|done].
  destruct (last l) as [k'|] eqn:Hlast; [|done]. intros [= ->].
  apply last_Some in Hlast as [l' ->].
  apply get_all_keys_Ok in Hl as (_ & _ & Hel & Hs & Hint).
  assert (k ∈ l' ++ [k]) as Hk by (apply elem_of_app; right; left).
  destruct (proj1 (Hel k) Hk) as [Hkc Hkz]. split_and!; [done..|].
  intros c Hc Hne.
  assert (c ∈ l' ++ [k]) as [Hin|Hin%list_elem_of_singleton]%elem_of_app
    by (by apply Hel).
  - eapply StronglySorted_app_1_elem_of; [done..|left].
  - subst c. destruct (Py.parse_int k) as [x|] eqn:Hx; [|by destruct (Hint k)].
    by exists x, x.
Qed.

Lemma get_most_recent_key_greatest_witness :
  "10" ∈ candidate <$> ["10/a"; "9/a"; ".zgroup"; "2/b"] ∧ "10" ≠ zgroup ∧
  ∀ c, c ∈ candidate <$> ["10/a"; "9/a"; ".zgroup"; "2/b"] → c ≠ zgroup →
       numeric_le c "10".
Proof.
  apply (get_most_recent_key_greatest (H := last_seen_order)
           ["10/a"; "9/a"; ".zgroup"; "2/b"] "10").
  vm_compute. reflexivity.
Defined.

(** X6.  The outcomes of [get_most_recent_key], by the candidates of the
    listing: it returns exactly when ['.zgroup'] is a candidate, there is
    another candidate, and [int] accepts every other candidate; it raises
    [IndexError] exactly when ['.zgroup'] is a candidate and the only one;
    every other exception is the one [get_all_keys] raises, unchanged. *)
Theorem get_most_recent_key_outcomes `{Interp} (keylist : list string) :
  (returns (get_most_recent_key keylist) ↔
     zgroup ∈ candidate <$> keylist ∧
     (∃ c, c ∈ candidate <$> keylist ∧ c ≠ zgroup) ∧
     ∀ c, c ∈ candidate <$> keylist → c ≠ zgroup → Py.parse_int c ≠ None) ∧
  (get_most_recent_key keylist = Raise IndexError ↔
     zgroup ∈ candidate <$> keylist ∧
     ∀ c, c ∈ candidate <$> keylist → c = zgroup) ∧
  (∀ e, e ≠ IndexError →
     get_most_recent_key keylist = Raise e ↔ get_all_keys keylist = Raise e).
Proof.
  rewrite get_most_recent_key_unfold.
  pose proof (get_all_keys_cases keylist) as Hc.
  pose proof (get_all_keys_returns keylist) as Hret.
  destruct (get_all_keys keylist) as [l|e] eqn:Hl; cbn.
  - destruct Hc as (Hz & _ & Hel & _ & Hint).
    destruct (last l) as [k|] eqn:Hlast.
    + apply last_Some_elem_of, Hel in Hlast as [Hk Hkz].
      split_and!.
      * split; [|intros; apply returns_Ok]. intros _. split_and!; [done| |].
        -- by exists k.
        -- intros c Hcs Hne. apply Hint, Hel. by split.
      * split; [done|]. intros [_ Hall]. by destruct Hkz; apply Hall.
      * intros e He. split; done.
    + apply last_None in Hlast as ->. split_and!.
      * split; [by intros [? ?]|]. intros (_ & (c & Hcs & Hne) & _).
        exfalso. apply (not_elem_of_nil c), Hel. by split.
      * split; [|done]. intros _. split; [done|]. intros c Hcs.
        destruct (decide (c = zgroup)) as [|Hne]; [done|].
        exfalso. apply (not_elem_of_nil c), Hel. by split.
      * intros e He. split; [by intros [= <-] | done].
  - split_and!.
    + split; [by intros [? ?]|]. intros (Hz & _ & Hint).
      destruct (Hret Hz Hint) as [? ?]. done.
    + split; [intros [= ->]; by destruct Hc|].
      intros [Hz Hall]. destruct Hret as [? ?]; [done| |done].
      intros c Hcs Hne. by destruct Hne; apply Hall.
    + intros e' _. split; by intros [= ->].
Qed.

(** X7.  On list objects, a call of [get_most_recent_key] changes no list
    that existed before it, the store's listing among them; what it
    returns or raises is what [get_most_recent_key] computes from the
    contents of the listing, so calling it again on the unchanged listing,
    as the periodic update of the plot does, gives the same answer. *)
Theorem get_most_recent_key_pure `{Interp} (store : Imp.ref) (h : Imp.heap) :
  (store < length h)%nat →
  let run1 := Imp.run (Imp.get_most_recent_key store) h in
  let run2 := Imp.run (Imp.get_most_recent_key store) run1.2 in
  h `prefix_of` run1.2 ∧
  run2.2 !! store = h !! store ∧
  run1.1 = get_most_recent_key (h !!! store) ∧
  run2.1 = run1.1.
Proof.
  intros Hstore run1 run2.
  destruct (run_get_most_recent_key store h) as [[new1 Hpre1] Hout1].
  destruct (run_get_most_recent_key store run1.2) as [[new2 Hpre2] Hout2].
  fold run1 in Hpre1, Hout1. fold run2 in Hpre2, Hout2.
  split_and!.
  - by exists new1.
  - rewrite Hpre2, Hpre1, <- app_assoc. by apply lookup_app_l.
  - done.
  - rewrite Hout2, Hout1, Hpre1. f_equal. by apply lookup_total_app_l.
Qed.

Lemma get_most_recent_key_pure_witness :
  let h := [["junk"]; ["10/a"; "2/a"; "2/b"; ".zgroup"]] in
  let run1 := Imp.run (Imp.get_most_recent_key (H := last_seen_order) 1%nat) h in
  let run2 := Imp.run (Imp.get_most_recent_key (H := last_seen_order) 1%nat) run1.2 in
  h `prefix_of` run1.2 ∧
  run2.2 !! 1%nat = h !! 1%nat ∧
  run1.1 = get_most_recent_key (H := last_seen_order) (h !!! 1%nat) ∧
  run2.1 = run1.1.
Proof.
  apply (get_most_recent_key_pure (H := last_seen_order) 1%nat
           [["junk"]; ["10/a"; "2/a"; "2/b"; ".zgroup"]]).
  simpl. lia.
Defined.

(** ** Keys written as decimal numerals *)

Lemma digit_value_range (c : ascii) (d : Z) :
  Py.digit_value c = Some d → 0 ≤ d ≤ 9 ∧ Z.of_N (N_of_ascii c) = d + 48.
Proof.
  unfold Py.digit_value.
  destruct (Z.leb_spec 48 (Z.of_N (N_of_ascii c)));
    destruct (Z.leb_spec (Z.of_N (N_of_ascii c)) 57); simpl; [|done..].
  intros [= <-]. lia.
Qed.

Lemma digit_value_inj (c c' : ascii) (d : Z) :
  Py.digit_value c = Some d → Py.digit_value c' = Some d → c = c'.
Proof.
  intros [_ Hc]%digit_value_range [_ Hc']%digit_value_range.
  rewrite <- (ascii_N_embedding c), <- (ascii_N_embedding c').
  f_equal. lia.
Qed.

Lemma digit_not_space (c : ascii) :
  is_Some (Py.digit_value c) → Py.is_space c = false.
Proof.
  intros [d [Hd Hc]%digit_value_range]. unfold Py.is_space. rewrite Hc.
  repeat match goal with
  | |- context [?a <=? ?b] => destruct (Z.leb_spec a b); try lia
  | |- context [?a =? ?b] => destruct (Z.eqb_spec a b); try lia
  end; done.
Qed.

Lemma scan_all_digits (s : string) (b : bool) (acc : Z) :
  all_digits s → s ≠ EmptyString →
  Py.scan_digits b acc s = Some (digits_value acc s, EmptyString).
Proof.
  revert b acc. induction s as [|c r IH]; intros b acc Hs Hne; [done|].
  destruct Hs as [[d Hd] Hr]. simpl. rewrite Hd. simpl.
  destruct r as [|c' r']; [done|]. by apply IH.
Qed.

(** [int] reads a run of decimal digits in base 10. *)
Lemma parse_int_decimal (s : string) :
  decimal_numeral s → Py.parse_int s = Some (digits_value 0 s).
Proof.
  intros [Hne Hs]. destruct s as [|c r]; [done|].
  pose proof Hs as [Hc _]. pose proof (digit_not_space c Hc) as Hsp.
  pose proof (scan_all_digits (String c r) false 0 Hs Hne) as Hscan.
  destruct Hc as [d Hd]. unfold Py.parse_int.
  cbn [Py.skip_spaces]. rewrite Hsp.
  assert (c ≠ "+"%char ∧ c ≠ "-"%char) as [Hplus Hminus]
    by (split; intros ->; discriminate Hd).
  destruct c as [[] [] [] [] [] [] [] []]; try done;
    (rewrite Hd, Hscan; reflexivity).
Qed.

Lemma digits_value_shift (s : string) (acc : Z) :
  digits_value acc s =
  acc * 10 ^ Z.of_nat (String.length s) + digits_value 0 s.
Proof.
  revert acc. induction s as [|c r IH]; intros acc; simpl String.length.
  - simpl. lia.
  - cbn [digits_value]. rewrite (IH (10 * acc + _)), (IH (10 * 0 + _)).
    rewrite Nat2Z.inj_succ, Z.pow_succ_r by lia. lia.
Qed.

Lemma digits_value_bound (s : string) :
  all_digits s → 0 ≤ digits_value 0 s < 10 ^ Z.of_nat (String.length s).
Proof.
  induction s as [|c r IH]; [simpl; lia|].
  intros [[d Hd] Hr]. cbn [digits_value]. rewrite digits_value_shift, Hd.
  apply digit_value_range in Hd as [Hd _]. specialize (IH Hr).
  simpl String.length. rewrite Nat2Z.inj_succ, Z.pow_succ_r by lia.
  simpl default. nia.
Qed.

Lemma digits_value_inj_length (a b : string) :
  all_digits a → all_digits b → String.length a = String.length b →
  digits_value 0 a = digits_value 0 b → a = b.
Proof.
  revert b. induction a as [|c r IH]; intros [|c' r'] Ha Hb Hlen Hval;
    try done.
  destruct Ha as [[d Hd] Hr], Hb as [[d' Hd'] Hr'].
  injection Hlen as Hlen. cbn [digits_value] in Hval.
  rewrite (digits_value_shift r), (digits_value_shift r'), Hd, Hd', Hlen in Hval.
  simpl default in Hval.
  pose proof (digits_value_bound r Hr) as Hbr.
  pose proof (digits_value_bound r' Hr') as Hbr'. rewrite Hlen in Hbr.
  assert (d = d') as -> by nia.
  f_equal; [by eapply digit_value_inj | apply IH; [done..|lia]].
Qed.

Lemma canonical_value_lower (c : ascii) (r : string) :
  all_digits (String c r) → c ≠ "0"%char →
  10 ^ Z.of_nat (String.length r) ≤ digits_value 0 (String c r).
Proof.
  intros [[d Hd] Hr] Hc. cbn [digits_value]. rewrite digits_value_shift, Hd.
  pose proof (digits_value_bound r Hr).
  assert (d ≠ 0) by (intros ->; by destruct Hc; eapply digit_value_inj).
  apply digit_value_range in Hd as [Hd _]. simpl default. nia.
Qed.

(** Canonical numerals of the same value are the same string. *)
Lemma canonical_numeral_inj (a b : string) :
  canonical_numeral a → canonical_numeral b →
  Py.parse_int a = Py.parse_int b → a = b.
Proof.
  intros [Ha Ha0] [Hb Hb0].
  rewrite (parse_int_decimal a Ha), (parse_int_decimal b Hb). intros [= Hval].
  destruct Ha as [_ Ha], Hb as [_ Hb].
  destruct Ha0 as [->|(c & r & -> & Hc)], Hb0 as [->|(c' & r' & -> & Hc')];
    [done| | |].
  - pose proof (canonical_value_lower c' r' Hb Hc') as Hlow.
    rewrite <- Hval in Hlow. simpl in Hlow.
    pose proof (Z.pow_pos_nonneg 10 (Z.of_nat (String.length r'))). lia.
  - pose proof (canonical_value_lower c r Ha Hc) as Hlow.
    rewrite Hval in Hlow. simpl in Hlow.
    pose proof (Z.pow_pos_nonneg 10 (Z.of_nat (String.length r))). lia.
  - apply digits_value_inj_length; [done..| |done].
    pose proof (canonical_value_lower c r Ha Hc) as Hlow.
    pose proof (canonical_value_lower c' r' Hb Hc') as Hlow'.
    pose proof (digits_value_bound _ Ha) as Hup.
    pose proof (digits_value_bound _ Hb) as Hup'.
    simpl String.length in *. rewrite Nat2Z.inj_succ in Hup, Hup'.
    destruct (Nat.lt_trichotomy (String.length r) (String.length r'))
      as [Hlt|[->|Hlt]]; [exfalso|done|exfalso].
    + assert (10 ^ Z.succ (Z.of_nat (String.length r))
                ≤ 10 ^ Z.of_nat (String.length r'))
        by (apply Z.pow_le_mono_r; lia). lia.
    + assert (10 ^ Z.succ (Z.of_nat (String.length r'))
                ≤ 10 ^ Z.of_nat (String.length r))
        by (apply Z.pow_le_mono_r; lia). lia.
Qed.

(** X8.  When ['.zgroup'] is a candidate and every other candidate is a
    canonical decimal numeral (decimal digits only, not empty, no leading
    zero), [get_all_keys] returns, its keys are pairwise distinct in
    value, and the list is strictly ascending by numeric value. *)
Theorem get_all_keys_canonical_strict `{Interp} (keylist : list string) :
  zgroup ∈ candidate <$> keylist →
  (∀ c, c ∈ candidate <$> keylist → c ≠ zgroup → canonical_numeral c) →
  ∃ l, get_all_keys keylist = Ok l ∧
       StronglySorted numeric_lt l ∧
       ∀ c, c ∈ l → non_negative_numeral c.
Proof.
  intros Hz Hcan.
  destruct (get_all_keys_returns keylist Hz) as [l Hl].
  { intros c Hc Hne. destruct (Hcan c Hc Hne) as [Hdec _].
    by rewrite (parse_int_decimal c Hdec). }
  exists l. split; [done|].
  apply get_all_keys_Ok in Hl as (_ & Hnd & Hel & Hs & _).
  assert (∀ c, c ∈ l → canonical_numeral c) as Hl
    by (intros c [? ?]%Hel; by apply Hcan).
  split.
  - apply numeric_le_lt; [done| |done].
    intros a b Ha Hb. apply canonical_numeral_inj; by apply Hl.
  - intros c [Hdec _]%Hl. exists (digits_value 0 c).
    split; [by apply parse_int_decimal|].
    destruct Hdec as [_ Hdig]. by apply digits_value_bound.
Qed.

Lemma get_all_keys_canonical_strict_witness :
  ∃ l, get_all_keys (H := last_seen_order) ["10/a"; "9/a"; ".zgroup"; "0/b"; "9/b"] = Ok l ∧
       StronglySorted numeric_lt l ∧
       ∀ c, c ∈ l → non_negative_numeral c.
Proof.
  apply (get_all_keys_canonical_strict (H := last_seen_order)
           ["10/a"; "9/a"; ".zgroup"; "0/b"; "9/b"]).
  - elem_of_listing.
  - intros c Hc Hne. each_elem_of Hc; try done.
    + split; [split; [done | by repeat split; eexists]|].
      right. by eexists _, _.
    + split; [split; [done | by repeat split; eexists]|].
      right. by eexists _, _.
    + split; [split; [done | by repeat split; eexists]|]. by left.
    + split; [split; [done | by repeat split; eexists]|].
      right. by eexists _, _.
Defined.

(** ** Loading the arrays *)

Lemma sublist_omap {A B} (f : A → option B) (l1 l2 : list A) :
  l1 `sublist_of` l2 → omap f l1 `sublist_of` omap f l2.
Proof.
  induction 1 as [|x l1 l2 _ IH|x l1 l2 _ IH]; csimpl; [done| |].
  - destruct (f x); [by apply sublist_skip | done].
  - destruct (f x); [by apply sublist_cons | done].
Qed.

Lemma length_omap_le {A B} (f : A → option B) (l : list A) :
  (length (omap f l) ≤ length l)%nat.
Proof. induction l as [|x l IH]; csimpl; [done|]. destruct (f x); simpl; lia. Qed.

Lemma length_omap_all {A B} (f : A → option B) (l : list A) :
  Forall (λ x, f x ≠ None) l → length (omap f l) = length l.
Proof.
  induction 1 as [|x l Hx _ IH]; csimpl; [done|].
  destruct (f x); [simpl; lia | done].
Qed.


Lemma sublist_Forall {A} (P : A → Prop) (l1 l2 : list A) :
  l1 `sublist_of` l2 → Forall P l2 → Forall P l1.
Proof.
  induction 1 as [|x l1 l2 _ IH|x l1 l2 _ IH]; [done| |];
    intros [? ?]%Forall_cons; [constructor|]; auto.
Qed.

Lemma sublist_StronglySorted {A} (R : relation A) (l1 l2 : list A) :
  l1 `sublist_of` l2 → StronglySorted R l2 → StronglySorted R l1.
Proof.
  induction 1 as [|x l1 l2 Hsub IH|x l1 l2 _ IH]; [done| |];
    intros [? ?]%StronglySorted_inv; [|by auto].
  constructor; [by auto|]. by eapply sublist_Forall.
Qed.

Lemma numeric_le_values (l : list string) :
  StronglySorted numeric_le l → StronglySorted Z.le (omap Py.parse_int l).
Proof.
  induction 1 as [|a l _ IH Ha]; csimpl; [constructor|].
  destruct (Py.parse_int a) as [x|] eqn:Hx; [|done].
  constructor; [done|]. apply Forall_forall. intros y Hy.
  apply list_elem_of_omap in Hy as (b & Hb & Hy).
  rewrite Forall_forall in Ha. destruct (Ha b Hb) as (x' & y' & ? & ? & ?).
  by simplify_eq.
Qed.

Section LoadFacts.
Context `{Libs}.

Lemma load_run_bind {A B} (m : Load.L A) (f : A → Load.L B) (fr : Load.frame) :
  Load.run (m ≫= f) fr =
    match Load.run m fr with
    | (inr a, fr') => Load.run (f a) fr'
    | (inl e, fr') => (inl e, fr')
    end.
Proof. done. Qed.

(** One turn of the loop, by what the two library calls do. *)
Lemma run_load_one (key : string) (fr : Load.frame) :
  Load.run (Load.load_one key) fr =
    match zarr_open_array key (Load.world fr) with
    | (inl e, w) =>
        (if is_ValueError e then inr () else inl (Load.Lib e),
         Load.Frame w (Load.dask_arrays fr) (Load.labels fr))
    | (inr za, w) =>
        match dask_from_zarr za w with
        | (inl e, w') =>
            (if is_ValueError e then inr () else inl (Load.Lib e),
             Load.Frame w' (Load.dask_arrays fr) (Load.labels fr))
        | (inr da, w') =>
            (inr (),
             Load.Frame w' (Load.dask_arrays fr ++ [da])
               (Load.labels fr ++ from_option (λ n, [n]) [] (Py.parse_int key)))
        end
    end.
Proof.
  unfold Load.load_one, Load.try_except_ValueError, Py.int. cbn.
  destruct (zarr_open_array key (Load.world fr)) as [[e|za] w]; cbn.
  - by destruct (is_ValueError e).
  - destruct (dask_from_zarr za w) as [[e|da] w']; cbn.
    + by destruct (is_ValueError e).
    + destruct (Py.parse_int key); cbn; [done|]. by rewrite app_nil_r.
Qed.

(** What the loop keeps true: the arrays and the labels grow at the end
    only, by one array for each key of some sub-sequence [loaded] of the
    keys and by one label for each of these that [int] accepts; and what
    escapes the loop is an exception of a library that is not a
    [ValueError]. *)
Lemma run_for_each_load_one (keys : list string) (fr : Load.frame) :
  ∃ loaded new,
    loaded `sublist_of` keys ∧
    length new = length loaded ∧
    Load.dask_arrays (Load.run (Load.for_each keys Load.load_one) fr).2 =
      Load.dask_arrays fr ++ new ∧
    Load.labels (Load.run (Load.for_each keys Load.load_one) fr).2 =
      Load.labels fr ++ omap Py.parse_int loaded ∧
    match (Load.run (Load.for_each keys Load.load_one) fr).1 with
    | inl e => ∃ x, e = Load.Lib x ∧ is_ValueError x = false
    | inr _ => True
    end.
Proof.
  revert fr. induction keys as [|key keys IH]; intros fr.
  - exists [], []. cbn. by rewrite !app_nil_r.
  - cbn [Load.for_each]. rewrite load_run_bind, run_load_one.
    destruct (zarr_open_array key (Load.world fr)) as [[e|za] w].
    + destruct (is_ValueError e) eqn:He.
      * destruct (IH (Load.Frame w (Load.dask_arrays fr) (Load.labels fr)))
          as (loaded & new & Hsub & Hlen & Ha & Hl & Hr).
        exists loaded, new. split_and!; [by apply sublist_cons|done..].
      * exists [], []. cbn. rewrite !app_nil_r.
        split_and!; [apply sublist_nil_l|done..|by exists e].
    + destruct (dask_from_zarr za w) as [[e|da] w'].
      * destruct (is_ValueError e) eqn:He.
        -- destruct (IH (Load.Frame w' (Load.dask_arrays fr) (Load.labels fr)))
             as (loaded & new & Hsub & Hlen & Ha & Hl & Hr).
           exists loaded, new. split_and!; [by apply sublist_cons|done..].
        -- exists [], []. cbn. rewrite !app_nil_r.
           split_and!; [apply sublist_nil_l|done..|by exists e].
      * destruct (IH (Load.Frame w' (Load.dask_arrays fr ++ [da])
                        (Load.labels fr ++
                           from_option (λ n, [n]) [] (Py.parse_int key))))
          as (loaded & new & Hsub & Hlen & Ha & Hl & Hr).
        exists (key :: loaded), (da :: new).
        split_and!; [by apply sublist_skip|simpl; lia| | |done].
        -- rewrite Ha. cbn. by rewrite <- app_assoc.
        -- rewrite Hl. cbn. rewrite <- app_assoc.
           by destruct (Py.parse_int key).
Qed.

(** The whole call: the loop on empty lists, then the stack and the
    labelled array; the last two calls leave the two lists alone. *)
Lemma run_load_as_dask_array (keys : list string) (fr : Load.frame) :
  Load.run (Load.load_as_dask_array keys) fr =
    match Load.run (Load.for_each keys Load.load_one)
            (Load.Frame (Load.world fr) [] []) with
    | (inl e, fr1) => (inl e, fr1)
    | (inr _, fr1) =>
        match dask_stack (Load.dask_arrays fr1) (Load.world fr1) with
        | (inl e, w) =>
            (inl (Load.Lib e),
             Load.Frame w (Load.dask_arrays fr1) (Load.labels fr1))
        | (inr stacked, w) =>
            match xr_DataArray stacked (Load.labels fr1) w with
            | (inl e, w') =>
                (inl (Load.Lib e),
                 Load.Frame w' (Load.dask_arrays fr1) (Load.labels fr1))
            | (inr d, w') =>
                (inr d, Load.Frame w' (Load.dask_arrays fr1) (Load.labels fr1))
            end
        end
    end.
Proof.
  unfold Load.load_as_dask_array.
  rewrite load_run_bind. cbn [Load.run Load.assign_dask_arrays].
  rewrite load_run_bind. cbn [Load.run Load.assign_labels Load.world Load.dask_arrays].
  rewrite load_run_bind.
  destruct (Load.run (Load.for_each keys Load.load_one) _) as [[e|[]] fr1];
    [done|].
  rewrite load_run_bind. cbn [Load.run Load.read_dask_arrays].
  rewrite load_run_bind. cbn [Load.run Load.call].
  destruct (dask_stack _ _) as [[e|stacked] w]; [done|].
  rewrite load_run_bind. cbn [Load.run Load.read_labels Load.call].
  cbn [Load.world Load.dask_arrays Load.labels].
  by destruct (xr_DataArray _ _ _) as [[e|d] w'].
Qed.

(** The two lists when the call ends, normally or not. *)
Lemma load_as_dask_array_lists (keys : list string) (fr : Load.frame) :
  ∃ loaded,
    loaded `sublist_of` keys ∧
    length (Load.dask_arrays (Load.run (Load.load_as_dask_array keys) fr).2) =
      length loaded ∧
    Load.labels (Load.run (Load.load_as_dask_array keys) fr).2 =
      omap Py.parse_int loaded.
Proof.
  rewrite run_load_as_dask_array.
  destruct (run_for_each_load_one keys (Load.Frame (Load.world fr) [] []))
    as (loaded & new & Hsub & Hlen & Ha & Hl & _).
  exists loaded. cbn in Ha, Hl.
  destruct (Load.run (Load.for_each keys Load.load_one) _) as [[e|[]] fr1];
    cbn in *.
  { split_and!; [done| |done]. by rewrite Ha. }
  destruct (dask_stack _ _) as [[e|stacked] w]; cbn.
  { split_and!; [done| |done]. by rewrite Ha. }
  destruct (xr_DataArray _ _ _) as [[e|d] w']; cbn;
    (split_and!; [done| |done]; by rewrite Ha).
Qed.

End LoadFacts.

Section LoadLoops.
Context `{Libs}.



End LoadLoops.

(** X9.  However a call of [load_as_dask_array] ends, its list of labels
    is never longer than its list of arrays, which is never longer than
    the list of keys; the labels are, in order, the integers of some of
    the keys. *)
Theorem load_labels_within_arrays `{Libs} (keys : list string) (fr : Load.frame) :
  let fr' := (Load.run (Load.load_as_dask_array keys) fr).2 in
  Load.labels fr' `sublist_of` omap Py.parse_int keys ∧
  (length (Load.labels fr') ≤ length (Load.dask_arrays fr'))%nat ∧
  (length (Load.dask_arrays fr') ≤ length keys)%nat.
Proof.
  intros fr'. destruct (load_as_dask_array_lists keys fr)
    as (loaded & Hsub & Ha & Hl).
  fold fr' in Ha, Hl. rewrite Hl, Ha. split_and!.
  - by apply sublist_omap.
  - apply length_omap_le.
  - by apply sublist_length.
Qed.

(** X10.  When [int] accepts every key, the labels and the arrays of a
    call of [load_as_dask_array] have the same length, however the call
    ends. *)
Theorem load_aligned_for_numerals `{Libs} (keys : list string) (fr : Load.frame) :
  Forall (λ k, Py.parse_int k ≠ None) keys →
  let fr' := (Load.run (Load.load_as_dask_array keys) fr).2 in
  length (Load.labels fr') = length (Load.dask_arrays fr').
Proof.
  intros Hkeys fr'. destruct (load_as_dask_array_lists keys fr)
    as (loaded & Hsub & Ha & Hl).
  fold fr' in Ha, Hl. rewrite Hl, Ha.
  apply length_omap_all. by eapply sublist_Forall.
Qed.

Lemma load_aligned_for_numerals_witness :
  let fr' := (Load.run (H := sample_libs)
                (Load.load_as_dask_array ["3"; "10"; "11"])
                (Load.Frame (H := sample_libs) 0%nat [["x"]] [5])).2 in
  length (Load.labels fr') = length (Load.dask_arrays fr').
Proof.
  apply (load_aligned_for_numerals (H := sample_libs)
           ["3"; "10"; "11"] (Load.Frame (H := sample_libs) 0%nat [["x"]] [5])).
  by repeat constructor.
Defined.

(** X11.  [load_as_dask_array(get_all_keys(store))], as the notebook
    calls it: on the keys [get_all_keys] returns, the labels and the
    arrays have the same length, the labels are in non-decreasing order,
    and each label is the integer of a candidate of the listing other
    than ['.zgroup']. *)
Theorem load_after_get_all_keys `{Interp} `{Libs}
    (keylist keys : list string) (fr : Load.frame) :
  get_all_keys keylist = Ok keys →
  let fr' := (Load.run (Load.load_as_dask_array keys) fr).2 in
  length (Load.labels fr') = length (Load.dask_arrays fr') ∧
  StronglySorted Z.le (Load.labels fr') ∧
  ∀ n, n ∈ Load.labels fr' →
       ∃ c, c ∈ candidate <$> keylist ∧ c ≠ zgroup ∧ Py.parse_int c = Some n.
Proof.
  intros (_ & _ & Hel & Hs & Hint)%get_all_keys_Ok fr'.
  destruct (load_as_dask_array_lists keys fr) as (loaded & Hsub & Ha & Hl).
  fold fr' in Ha, Hl. rewrite Hl, Ha. split_and!.
  - apply length_omap_all. eapply sublist_Forall; [done|].
    by apply Forall_forall.
  - apply numeric_le_values. by eapply sublist_StronglySorted.
  - intros n (c & Hc & Hn)%list_elem_of_omap.
    assert (c ∈ keys) as [? ?]%Hel.
    { eapply (sublist_Forall (λ x, x ∈ keys)) in Hsub;
        [|by apply Forall_forall].
      rewrite Forall_forall in Hsub. by apply Hsub. }
    by exists c.
Qed.

Lemma load_after_get_all_keys_witness :
  let fr' := (Load.run (H := sample_libs)
                (Load.load_as_dask_array ["2"; "10"])
                (Load.Frame (H := sample_libs) 0%nat [] [])).2 in
  length (Load.labels fr') = length (Load.dask_arrays fr') ∧
  StronglySorted Z.le (Load.labels fr') ∧
  ∀ n, n ∈ Load.labels fr' →
       ∃ c, c ∈ candidate <$> ["10/a"; "2/a"; "2/b"; ".zgroup"] ∧
            c ≠ zgroup ∧ Py.parse_int c = Some n.
Proof.
  apply (load_after_get_all_keys (H := last_seen_order) (H0 := sample_libs)
           ["10/a"; "2/a"; "2/b"; ".zgroup"] ["2"; "10"]
           (Load.Frame (H := sample_libs) 0%nat [] [])).
  vm_compute. reflexivity.
Defined.





(** X14.  The [ValueError] of [int] never leaves [load_as_dask_array]:
    what the loop lets escape is an exception of a library that is not a
    [ValueError], and whatever the call raises is an exception of a
    library. *)
Theorem load_raises_library_errors_only `{Libs}
    (keys : list string) (fr : Load.frame) :
  (∀ e, (Load.run (Load.for_each keys Load.load_one) fr).1 = inl e →
        ∃ x, e = Load.Lib x ∧ is_ValueError x = false) ∧
  (∀ e, (Load.run (Load.load_as_dask_array keys) fr).1 = inl e →
        ∃ x, e = Load.Lib x).
Proof.
  split.
  - intros e He.
    destruct (run_for_each_load_one keys fr) as (_ & _ & _ & _ & _ & _ & Hr).
    by rewrite He in Hr.
  - intros e. rewrite run_load_as_dask_array.
    destruct (run_for_each_load_one keys (Load.Frame (Load.world fr) [] []))
      as (_ & _ & _ & _ & _ & _ & Hr).
    destruct (Load.run (Load.for_each keys Load.load_one) _) as [[e'|[]] fr1];
      cbn in *.
    { intros [= <-]. destruct Hr as (x & -> & _). by exists x. }
    destruct (dask_stack _ _) as [[e'|stacked] w]; cbn.
    { intros [= <-]. by eexists. }
    destruct (xr_DataArray _ _ _) as [[e'|d] w']; cbn; [|done].
    intros [= <-]. by eexists.
Qed.
